(** * TinyAudio CLI: a shallow embedding of [tinyaudio_cli.py]

    The development follows the layout of the script: helpers
    ([human_to_bytes], [ffprobe_duration],
    [compute_bitrate_for_target_size], [normalize_ext_for_codec]),
    processing ([build_filterchain], [build_ffmpeg_cmd],
    [compress_audio]) and the command line driver ([main]).

    Python values are modelled as follows.
    - [int] is [Z]; [float] is the primitive binary64 type [float], so the
      arithmetic of the script is evaluated bit for bit;
    - [str] is [string], the UTF-8 encoding of the text; the characters
      are read where the script looks at them, with the classes of
      CPython 3.11;
    - [None]-able values are [option]s, truthiness is written out;
    - exceptions are values of [exn], fallible code returns [result];
    - [pathlib.Path] is the POSIX flavour, a root and a list of names;
    - everything the script asks of the operating system (the file system,
      the two external tools, the JSON reader, the conversions between text
      and [float], the standard output) is an oracle of the record [OS],
      over an abstract state of the world that is threaded through the
      calls. *)

From Stdlib Require Import ZArith List String Ascii Bool Lia Floats.
From Stdlib Require Import DecimalString DecimalN DecimalZ Sorted.
Import ListNotations.

Set Warnings "-inexact-float".
Local Open Scope string_scope.
Local Open Scope list_scope.
Local Open Scope Z_scope.

(** ** Exceptions and results *)

Inductive exn : Type :=
| ValueError (msg : string)
| RuntimeError (msg : string)
| OverflowError
| ZeroDivisionError
| OSError (msg : string)
| OtherException (msg : string).

Inductive result (A : Type) : Type :=
| Ok (a : A)
| Raise (e : exn).

Arguments Ok {A} a.
Arguments Raise {A} e.

Definition rbind {A B : Type} (r : result A) (k : A -> result B) : result B :=
  match r with
  | Ok a => k a
  | Raise e => Raise e
  end.

Definition is_ok {A : Type} (r : result A) : bool :=
  match r with Ok _ => true | Raise _ => false end.

Declare Scope result_scope.
Delimit Scope result_scope with result.
Notation "x <- r ;; k" := (rbind r (fun x => k))
  (at level 61, r at next level, right associativity) : result_scope.

(** ** Text

    A [str] is a sequence of code points, and a [string] holds its UTF-8
    encoding, byte by byte.  [decode] reads the code points.  A byte that
    starts no well-formed sequence is read as Python reads the bytes of a
    command line, under [surrogateescape]: as the code point U+DC00 plus the
    byte.  [encode] writes code points back.

    The character classes are those of CPython 3.11, that is of Unicode
    14.0: [\s] and [str.isspace] are the 29 white space characters, [\d] is
    the category Nd, 66 runs of ten digits. *)

(** A continuation byte. *)
Definition cont (b : N) : bool := ((128 <=? b) && (b <=? 191))%N.

(** The second byte of a sequence of three bytes: no overlong form, no
    surrogate. *)
Definition second3 (b0 b1 : N) : bool :=
  (if b0 =? 224 then (160 <=? b1) && (b1 <=? 191)
   else if b0 =? 237 then (128 <=? b1) && (b1 <=? 159)
   else cont b1)%N.

(** The second byte of a sequence of four bytes: no overlong form, nothing
    beyond U+10FFFF. *)
Definition second4 (b0 b1 : N) : bool :=
  (if b0 =? 240 then (144 <=? b1) && (b1 <=? 191)
   else if b0 =? 244 then (128 <=? b1) && (b1 <=? 143)
   else cont b1)%N.

Fixpoint decode (s : string) : list N :=
  match s with
  | EmptyString => []
  | String c0 r0 =>
      let b0 := N_of_ascii c0 in
      if (b0 <? 128)%N then b0 :: decode r0
      else
        match r0 with
        | EmptyString => (56320 + b0)%N :: decode r0
        | String c1 r1 =>
            let b1 := N_of_ascii c1 in
            if ((194 <=? b0) && (b0 <=? 223))%N then
              if cont b1 then ((b0 - 192) * 64 + (b1 - 128))%N :: decode r1
              else (56320 + b0)%N :: decode r0
            else
              match r1 with
              | EmptyString => (56320 + b0)%N :: decode r0
              | String c2 r2 =>
                  let b2 := N_of_ascii c2 in
                  if ((224 <=? b0) && (b0 <=? 239))%N then
                    if second3 b0 b1 && cont b2 then
                      ((b0 - 224) * 4096 + (b1 - 128) * 64 + (b2 - 128))%N
                      :: decode r2
                    else (56320 + b0)%N :: decode r0
                  else
                    match r2 with
                    | EmptyString => (56320 + b0)%N :: decode r0
                    | String c3 r3 =>
                        let b3 := N_of_ascii c3 in
                        if ((240 <=? b0) && (b0 <=? 244))%N
                           && second4 b0 b1 && cont b2 && cont b3 then
                          ((b0 - 240) * 262144 + (b1 - 128) * 4096
                           + (b2 - 128) * 64 + (b3 - 128))%N
                          :: decode r3
                        else (56320 + b0)%N :: decode r0
                    end
              end
        end
  end.

Definition bytes (l : list N) : string :=
  string_of_list_ascii (map ascii_of_N l).

Definition encode_char (c : N) : string :=
  (if c <? 128 then bytes [c]
   else if c <? 2048 then bytes [192 + c / 64; 128 + c mod 64]
   else if (56448 <=? c) && (c <=? 56575) then bytes [c - 56320]
   else if c <? 65536 then
     bytes [224 + c / 4096; 128 + (c / 64) mod 64; 128 + c mod 64]
   else
     bytes [240 + c / 262144; 128 + (c / 4096) mod 64; 128 + (c / 64) mod 64;
            128 + c mod 64])%N.

Definition encode (l : list N) : string := String.concat "" (map encode_char l).

(** [\s], [str.isspace] *)
Definition is_space (c : N) : bool :=
  ((9 <=? c) && (c <=? 13) || (28 <=? c) && (c <=? 32) || (c =? 133) || (c =? 160)
   || (c =? 5760) || (8192 <=? c) && (c <=? 8202) || (c =? 8232) || (c =? 8233)
   || (c =? 8239) || (c =? 8287) || (c =? 12288))%N.

(** The digits zero of the category Nd; the other nine digits of each run
    follow their zero. *)
Definition decimal_zeros : list N :=
  [48; 1632; 1776; 1984; 2406; 2534; 2662; 2790; 2918; 3046; 3174; 3302; 3430;
   3558; 3664; 3792; 3872; 4160; 4240; 6112; 6160; 6470; 6608; 6784; 6800;
   6992; 7088; 7232; 7248; 42528; 43216; 43264; 43472; 43504; 43600; 44016;
   65296; 66720; 68912; 69734; 69872; 69942; 70096; 70384; 70736; 70864;
   71248; 71360; 71472; 71904; 72016; 72784; 73040; 73120; 92768; 92864;
   93008; 120782; 120792; 120802; 120812; 120822; 123200; 123632; 125264;
   130032]%N.

(** The value of a decimal digit. *)
Definition digit_value (c : N) : option N :=
  match find (fun z => (z <=? c) && (c <? z + 10))%N decimal_zeros with
  | Some z => Some (c - z)%N
  | None => None
  end.

(** [\d] *)
Definition is_digit (c : N) : bool :=
  match digit_value c with Some _ => true | None => false end.

(** [[\d.]] *)
Definition is_digit_or_dot (c : N) : bool := is_digit c || (c =? 46)%N.

Definition lower_char (c : ascii) : ascii :=
  let n := N_of_ascii c in
  if ((65 <=? n) && (n <=? 90))%N then ascii_of_N (n + 32) else c.

(** [s.lower()], as far as the script needs it: the script compares the
    result with the ASCII strings of [AUDIO_EXTS].  The ASCII letters are
    lowered; the one character outside ASCII whose lower case is an ASCII
    letter is U+212A, which gives the letter k, and k is in none of these
    strings: a string with a character outside ASCII is in [AUDIO_EXTS]
    neither here nor there. *)
Fixpoint lower (s : string) : string :=
  match s with
  | EmptyString => EmptyString
  | String c r => String (lower_char c) (lower r)
  end.

(** [c.upper()] for the letters that the unit of a size can hold: the ASCII
    letters are raised, and U+212A KELVIN SIGN is an upper case letter
    already. *)
Definition upper_letter (c : N) : N :=
  if ((97 <=? c) && (c <=? 122))%N then (c - 32)%N else c.

(** [\s*]: the longest run of white space is dropped. *)
Fixpoint skip_ws (l : list N) : list N :=
  match l with
  | c :: r => if is_space c then skip_ws r else l
  | [] => []
  end.

(** The longest run of characters that satisfy [p], and the rest. *)
Fixpoint take_run (p : N -> bool) (l : list N) : list N * list N :=
  match l with
  | c :: r =>
      if p c then let (a, b) := take_run p r in (c :: a, b)
      else ([], l)
  | [] => ([], [])
  end.

(** The longest prefix whose bytes satisfy [p], and the rest. *)
Fixpoint span (p : ascii -> bool) (s : string) : string * string :=
  match s with
  | String c r =>
      if p c then let (a, b) := span p r in (String c a, b)
      else (EmptyString, s)
  | EmptyString => (EmptyString, EmptyString)
  end.

Fixpoint rstrip (l : list N) : list N :=
  match l with
  | [] => []
  | c :: r =>
      match rstrip r with
      | [] => if is_space c then [] else [c]
      | d :: t => c :: d :: t
      end
  end.

(** [s.strip()] *)
Definition strip (s : string) : string := encode (rstrip (skip_ws (decode s))).


Definition truthy_str (o : option string) : bool :=
  match o with
  | Some s => negb (String.eqb s "")
  | None => false
  end.

Definition truthy_int (o : option Z) : bool :=
  match o with
  | Some n => negb (n =? 0)
  | None => false
  end.

(** [x if x is not None else y] *)
Definition or_else {A : Type} (x y : option A) : option A :=
  match x with
  | Some _ => x
  | None => y
  end.

(** [x or d] on an optional integer. *)
Definition int_or (o : option Z) (d : Z) : Z :=
  match o with
  | Some n => if n =? 0 then d else n
  | None => d
  end.

(** [x or d] on an optional string. *)
Definition str_or (o : option string) (d : string) : string :=
  match o with
  | Some s => if String.eqb s "" then d else s
  | None => d
  end.

(** [str(n)] and [f"{n}"] for an [int]. *)
Definition str_int (n : Z) : string := NilZero.string_of_int (Z.to_int n).

(** The numeral that a run of decimal digits stands for. *)
Fixpoint uint_of_digits (g : list N) : Decimal.uint :=
  match g with
  | [] => Decimal.Nil
  | c :: r =>
      let u := uint_of_digits r in
      match digit_value c with
      | Some 1%N => Decimal.D1 u
      | Some 2%N => Decimal.D2 u
      | Some 3%N => Decimal.D3 u
      | Some 4%N => Decimal.D4 u
      | Some 5%N => Decimal.D5 u
      | Some 6%N => Decimal.D6 u
      | Some 7%N => Decimal.D7 u
      | Some 8%N => Decimal.D8 u
      | Some 9%N => Decimal.D9 u
      | _ => Decimal.D0 u
      end
  end.

(** The value of a run of decimal digits, of whatever script; leading zeros
    are allowed. *)
Definition int_digits (g : list N) : Z := Z.of_N (N.of_uint (uint_of_digits g)).

(** [sys.get_int_max_str_digits()], as CPython 3.11 starts with. *)
Definition int_max_str_digits : nat := 4300.

Definition int_limit_message (digits : nat) : string :=
  "Exceeds the limit (" ++ str_int (Z.of_nat int_max_str_digits)
  ++ " digits) for integer string conversion: value has "
  ++ str_int (Z.of_nat digits)
  ++ " digits; use sys.set_int_max_str_digits() to increase the limit".

(** [int(s)] for a run of decimal digits, the only strings the script
    converts: a run of more than [int_max_str_digits] digits is refused. *)
Definition int_of_digits (g : list N) : result Z :=
  if (int_max_str_digits <? List.length g)%nat
  then Raise (ValueError (int_limit_message (List.length g)))
  else Ok (int_digits g).


(** ** Floating point *)

(** [float(n)] for an [int]: the nearest binary64 value, ties to even;
    [OverflowError] when that is not finite. *)
Definition float_of_int (n : Z) : result float :=
  let f := SF2Prim (binary_normalize prec emax n 0 false) in
  if is_infinity f then Raise OverflowError else Ok f.

(** [int(x)] for a [float]: truncation towards zero; [ValueError] on a NaN
    and [OverflowError] on an infinity. *)
Definition int_of_float (x : float) : result Z :=
  match Prim2SF x with
  | S754_zero _ => Ok 0
  | S754_finite s m e =>
      let v := if 0 <=? e then Z.shiftl (Zpos m) e
               else Z.shiftr (Zpos m) (- e) in
      Ok (if s then - v else v)
  | S754_infinity _ => Raise OverflowError
  | S754_nan => Raise (ValueError "cannot convert float NaN to integer")
  end.

(** [a / b] for two [int]s, as far as it can raise: the quotient is rounded
    to the nearest [float], and it is an error when that is not finite. *)
Definition true_div (a b : Z) : result unit :=
  if b =? 0 then Raise ZeroDivisionError
  else if Z.abs b * (2 ^ 1025 - 2 ^ 971) <=? 2 * Z.abs a then Raise OverflowError
  else Ok tt.

(** ** Presets *)

Inductive preset_name : Type := voice | music | podcast.

Definition preset_name_eqb (a b : preset_name) : bool :=
  match a, b with
  | voice, voice | music, music | podcast, podcast => true
  | _, _ => false
  end.

Record preset_config : Type := mkPreset {
  p_samplerate : Z;
  p_channels : Z;
  p_bitrate_bps : Z;
  p_codec : string;
  p_lufs : option float;
  p_highpass : option Z;
  p_lowpass : option Z;
  p_description : string
}.

Definition PRESETS (name : preset_name) : preset_config :=
  match name with
  | voice =>
      mkPreset 24000 1 32000 "opus" (Some (-16.0)%float) (Some 80) (Some 12000)
        "Voice optimized - mono, 32kbps Opus (~70-90% smaller)"
  | music =>
      mkPreset 48000 2 80000 "opus" (Some (-14.0)%float) None None
        "Music quality - stereo, 80kbps Opus (~40-60% smaller)"
  | podcast =>
      mkPreset 44100 1 64000 "opus" (Some (-16.0)%float) (Some 60) (Some 15000)
        "Podcast - mono, 64kbps Opus (~50-75% smaller)"
  end.

Definition DEFAULT_PRESET : preset_name := voice.

(** ** The options object

    The [argparse] namespace, with the four attributes [ts], [b], [sr] and
    [ch] that [main] stores on it before the loop.  It is one mutable object
    shared by every job of a run. *)

Record Args : Type := mkArgs {
  paths : list string;
  preset : preset_name;
  output : option string;
  suffix : string;
  codec : option string;
  bitrate : option string;
  target_size : option string;
  samplerate : option Z;
  channels : option Z;
  lufs : option float;
  st : bool;
  sth : option float;
  sd : option float;
  hp : option Z;
  lp : option Z;
  list_presets : bool;
  ts : option Z;
  b : option string;
  sr : option Z;
  ch : option Z
}.

(** [args.lp = v] *)
Definition set_lp (a : Args) (v : option Z) : Args :=
  mkArgs (paths a) (preset a) (output a) (suffix a) (codec a) (bitrate a)
    (target_size a) (samplerate a) (channels a) (lufs a) (st a) (sth a)
    (sd a) (hp a) v (list_presets a) (ts a) (b a) (sr a) (ch a).

(** Lines 419 to 432 of [main]: [args.ts = v], [args.b = args.bitrate],
    [args.sr = args.samplerate], [args.ch = args.channels]. *)
Definition set_parsed (a : Args) (v : option Z) : Args :=
  mkArgs (paths a) (preset a) (output a) (suffix a) (codec a) (bitrate a)
    (target_size a) (samplerate a) (channels a) (lufs a) (st a) (sth a)
    (sd a) (hp a) (lp a) (list_presets a) v (bitrate a) (samplerate a)
    (channels a).

(** ** Bitrate *)

(** [re.match(r"^\s*(\d+)\s*[kK]?\s*$", s)]: the digits of group 1 when the
    string matches.  White space, digits and the letter k are disjoint
    classes, so the greedy scan is the only way to match. *)
Definition match_bitrate (s : string) : option (list N) :=
  let (digits, r1) := take_run is_digit (skip_ws (decode s)) in
  match digits with
  | [] => None
  | _ :: _ =>
      let r2 := skip_ws r1 in
      let r3 := match r2 with
                | c :: r => if ((c =? 107) || (c =? 75))%N then r else r2
                | [] => r2
                end in
      match skip_ws r3 with
      | [] => Some digits
      | _ :: _ => None
      end
  end.


Definition compute_bitrate_for_target_size (target_bytes : Z) (duration_sec : float)
  : result Z :=
  if (duration_sec <=? 0)%float then Raise (ValueError "Duration must be positive")
  else
    (n <- float_of_int (target_bytes * 8) ;;
     let bits_available := (n * 0.97)%float in
     br <- int_of_float (bits_available / duration_sec)%float ;;
     Ok (Z.max 6000 (Z.min br 512000)))%result.

(** Lines 234 to 243 of [compress_audio]: which source gives the bitrate.
    [if args.ts:] and [elif args.b:] test truthiness: a target size of zero
    bytes and an empty bitrate string count as absent. *)
Definition determine_bitrate (args : Args) (duration : float) (pc : preset_config)
  : result Z :=
  let from_bitrate_or_preset :=
    match b args with
    | Some s =>
        if String.eqb s "" then Ok (p_bitrate_bps pc)
        else
          match match_bitrate s with
          | None => Raise (ValueError ("Invalid bitrate: " ++ s))
          | Some g => (n <- int_of_digits g ;; Ok (n * 1000))%result
          end
    | None => Ok (p_bitrate_bps pc)
    end in
  match ts args with
  | Some n =>
      if n =? 0 then from_bitrate_or_preset
      else compute_bitrate_for_target_size n duration
  | None => from_bitrate_or_preset
  end.

Definition normalize_ext_for_codec (codec : string) : string :=
  if String.eqb codec "opus" then ".opus"
  else if String.eqb codec "aac" then ".m4a"
  else if String.eqb codec "mp3" then ".mp3"
  else ".m4a".

(** ** Paths

    [pathlib]'s pure POSIX paths: a root (empty, one slash or two) and the
    names below it.  Empty names and single dots are dropped when a string
    is read, as [pathlib] does. *)

Record Path : Type := mkPath {
  anchor : string;
  names : list string
}.

(** [p == q] *)
Definition Path_eqb (p q : Path) : bool :=
  String.eqb (anchor p) (anchor q)
  && if list_eq_dec string_dec (names p) (names q) then true else false.

(** [s.split("/")]. *)
Fixpoint split_slash (s : string) : list string :=
  match s with
  | EmptyString => [EmptyString]
  | String c r =>
      if Ascii.eqb c "/" then EmptyString :: split_slash r
      else
        match split_slash r with
        | h :: t => String c h :: t
        | [] => [String c EmptyString]
        end
  end.

Definition is_name (s : string) : bool :=
  negb (String.eqb s "") && negb (String.eqb s ".").

(** One leading slash gives the root [/], exactly two give [//], three or
    more give [/] again. *)
Definition leading_slashes (s : string) : nat :=
  String.length (fst (span (fun c => Ascii.eqb c "/") s)).

Definition root_of (s : string) : string :=
  match leading_slashes s with
  | O => ""
  | 2%nat => "//"
  | _ => "/"
  end.

(** [Path(s)] *)
Definition PosixPath (s : string) : Path :=
  mkPath (root_of s) (filter is_name (split_slash s)).

(** [p / s] for a string [s]: an absolute [s] replaces [p]. *)
Definition joinpath (p : Path) (s : string) : Path :=
  let q := PosixPath s in
  if String.eqb (anchor q) "" then mkPath (anchor p) (names p ++ names q)
  else q.

(** [p.name] *)
Definition name (p : Path) : string := last (names p) EmptyString.

(** [p.parent] *)
Definition parent (p : Path) : Path := mkPath (anchor p) (removelast (names p)).

(** [s.rfind(".")] *)
Fixpoint rfind_dot (s : string) : option nat :=
  match s with
  | EmptyString => None
  | String c r =>
      match rfind_dot r with
      | Some i => Some (S i)
      | None => if Ascii.eqb c "." then Some O else None
      end
  end.

(** [(s[:i], s[i:])] *)
Fixpoint split_at (i : nat) (s : string) : string * string :=
  match i, s with
  | O, _ => (EmptyString, s)
  | S j, String c r => let (a, b) := split_at j r in (String c a, b)
  | S _, EmptyString => (EmptyString, EmptyString)
  end.

(** The index at which [pathlib] cuts a name into stem and suffix: the last
    dot, unless it is the first or the last character. *)
Definition suffix_index (n : string) : nat :=
  match rfind_dot n with
  | Some i =>
      if (Nat.ltb 0 i && Nat.ltb i (String.length n - 1))%bool then i
      else String.length n
  | None => String.length n
  end.

(** [p.stem] and [p.suffix] *)
Definition stem (p : Path) : string := fst (split_at (suffix_index (name p)) (name p)).
Definition path_suffix (p : Path) : string :=
  snd (split_at (suffix_index (name p)) (name p)).

(** [str(p)] *)
Definition str_path (p : Path) : string :=
  match names p with
  | [] => if String.eqb (anchor p) "" then "." else anchor p
  | _ => anchor p ++ String.concat "/" (names p)
  end.

Definition AUDIO_EXTS : list string :=
  [".wav"; ".mp3"; ".m4a"; ".aac"; ".flac"; ".ogg"; ".opus"; ".wma"; ".aiff";
   ".aif"; ".aifc"; ".caf"].

(** ** Sizes *)

(** [re.match(r"^\s*([\d.]+)\s*([KMG]?B)?\s*$", s, re.IGNORECASE)]: groups 1
    and 2 when the string matches.  Without regard to case the letter B is
    B or b, and the class [[KMG]] holds the three letters in either case and
    U+212A KELVIN SIGN, which folds to k. *)
Definition is_B (c : N) : bool := ((c =? 66) || (c =? 98))%N.

Definition is_KMG (c : N) : bool :=
  ((c =? 75) || (c =? 107) || (c =? 8490) || (c =? 77) || (c =? 109)
   || (c =? 71) || (c =? 103))%N.

Definition match_size (s : string) : option (list N * option (list N)) :=
  let (num, r1) := take_run is_digit_or_dot (skip_ws (decode s)) in
  match num with
  | [] => None
  | _ :: _ =>
      let r2 := skip_ws r1 in
      let (unit, r3) :=
        match r2 with
        | c :: d :: r =>
            if is_KMG c && is_B d then (Some [c; d], r)
            else if is_B c then (Some [c], d :: r)
            else (None, r2)
        | [c] => if is_B c then (Some [c], []) else (None, r2)
        | [] => (None, r2)
        end in
      match skip_ws r3 with
      | [] => Some (num, unit)
      | _ :: _ => None
      end
  end.


Definition scale (unit : string) : option Z :=
  if String.eqb unit "B" then Some 1
  else if String.eqb unit "KB" then Some 1024
  else if String.eqb unit "MB" then Some (1024 ^ 2)
  else if String.eqb unit "GB" then Some (1024 ^ 3)
  else None.

(** ** The operating system *)

(** The triple that [run_cmd] returns. *)
Record proc : Type := mkProc {
  returncode : Z;
  stdout : string;
  stderr : string
}.

(** What [ffprobe -print_format json -show_format -show_streams] writes, as
    far as the script reads it: an optional ["format"] object with an
    optional ["duration"], and an optional ["streams"] array whose elements
    have an optional ["codec_type"] and an optional ["duration"].  The
    durations are JSON strings. *)
Record stream_info : Type := mkStream {
  s_codec_type : option string;
  s_duration : option string
}.

Record probe_info : Type := mkInfo {
  i_format : option (option string);
  i_streams : option (list stream_info)
}.

(** What the script prints, one constructor for each run of consecutive
    [print] calls, with the values that go into the message.  The text
    itself is not modelled. *)
Inductive notice : Type :=
| PresetList                                   (* lines 395 to 402 *)
| MissingTool (binname : string)               (* lines 62 to 67 *)
| NoAudioFiles                                 (* lines 415 and 416 *)
| SizeError (e : exn)                          (* line 425 *)
| RunHeader (files : nat) (p : preset_name)    (* lines 439 to 442 *)
| InputNotFound (f : Path)                     (* line 225 *)
| Estimate (f : Path) (original_size est_size bitrate_bps : Z) (codec : string)
                                               (* lines 260 to 263 *)
| EncoderError (err : string)                  (* line 279 *)
| ActualSize (original_size actual_size : Z)   (* line 289 *)
| JobError (f : Path) (e : exn)                (* lines 295 and 296 *)
| BlankLine                                    (* line 476 *)
| Summary (success_count failed_count : Z).    (* lines 479 and 480 *)

Record OS (World : Type) : Type := mkOS {
  (** [shutil.which(name) is not None] *)
  shutil_which : World -> string -> bool;
  (** [collect_inputs]: the audio files found under the given paths, sorted
      and without duplicates *)
  collect_inputs : World -> list Path -> list Path;
  os_path_exists : World -> Path -> bool;
  os_path_getsize : World -> Path -> result Z;
  os_remove : World -> Path -> World * result unit;
  path_is_dir : World -> Path -> bool;
  (** [p.mkdir(parents=True, exist_ok=True)] *)
  path_mkdir : World -> Path -> World * result unit;
  (** [run_cmd]: a process is started and waited for *)
  run_cmd : World -> list string -> World * result proc;
  (** [json.loads] on the output of [ffprobe] *)
  json_loads : string -> result probe_info;
  (** [float(s)] for a string *)
  float_of_str : string -> result float;
  (** [f"{x}"] for a [float] *)
  float_repr : float -> string;
  (** [print(...)]: the message is put together and written to the standard
      output; either step can raise *)
  os_print : World -> notice -> World * result unit;
  (** what is printed goes to the standard output: no file appears or
      disappears by it *)
  print_keeps_files :
    forall w n p, os_path_exists (fst (os_print w n)) p = os_path_exists w p
}.

Arguments shutil_which {World} _ _ _.
Arguments collect_inputs {World} _ _ _.
Arguments os_path_exists {World} _ _ _.
Arguments os_path_getsize {World} _ _ _.
Arguments os_remove {World} _ _ _.
Arguments path_is_dir {World} _ _ _.
Arguments path_mkdir {World} _ _ _.
Arguments run_cmd {World} _ _ _.
Arguments json_loads {World} _ _.
Arguments float_of_str {World} _ _.
Arguments float_repr {World} _ _.
Arguments os_print {World} _ _ _.
Arguments print_keeps_files {World} _ _ _ _.

(** How a run of [main] ends. *)
Inductive run_result : Type :=
| Listed
| SysExit (code : Z)
| Uncaught (e : exn)
| Completed (success_count failed_count : Z).

(** The parameters of one encoder invocation, as [compress_audio] has them
    when it calls [run_cmd]. *)
Record Job : Type := mkJob {
  j_bitrate_bps : Z;
  j_samplerate : Z;
  j_channels : Z;
  j_codec : string;
  j_filterchain : string;
  j_est_size : Z;
  j_cmd : list string
}.

(** The same parameters before the command is built, as [compress_audio]
    has them when it prints its estimate. *)
Record Plan : Type := mkPlan {
  pl_bitrate_bps : Z;
  pl_samplerate : Z;
  pl_channels : Z;
  pl_codec : string;
  pl_filterchain : string;
  pl_est_size : Z
}.

(** ** State: the world and the shared options object

    An exception leaves the state as it was when it was raised: what a job
    stored on the options object before failing stays stored. *)

Section StateMonad.

Context {World : Type}.

Record State : Type := mkState {
  world : World;
  args : Args
}.

Definition M (A : Type) : Type := State -> State * result A.

Definition ret {A : Type} (a : A) : M A := fun s => (s, Ok a).

Definition raise {A : Type} (e : exn) : M A := fun s => (s, Raise e).

Definition bind {A B : Type} (m : M A) (k : A -> M B) : M B :=
  fun s =>
    match m s with
    | (s1, Ok a) => k a s1
    | (s1, Raise e) => (s1, Raise e)
    end.

Definition lift {A : Type} (r : result A) : M A := fun s => (s, r).

Definition ask {A : Type} (f : World -> A) : M A :=
  fun s => (s, Ok (f (world s))).

Definition call {A : Type} (f : World -> World * result A) : M A :=
  fun s => let (w, r) := f (world s) in (mkState w (args s), r).

Definition update_args {A : Type} (f : Args -> Args * result A) : M A :=
  fun s => let (a, r) := f (args s) in (mkState (world s) a, r).

End StateMonad.

Arguments State : clear implicits.
Arguments M : clear implicits.

Declare Scope monad_scope.
Delimit Scope monad_scope with monad.
Notation "x <- m ;; k" := (bind m (fun x => k))
  (at level 61, m at next level, right associativity) : monad_scope.
Notation "m ;; k" := (bind m (fun _ => k))
  (at level 61, right associativity) : monad_scope.

Section Program.

Context {World : Type} (os : OS World).

(** *** Helpers *)

Definition require_ffmpeg (w : World) : bool :=
  shutil_which os w "ffmpeg" && shutil_which os w "ffprobe".

Definition human_to_bytes (s : string) : result Z :=
  match match_size s with
  | None => Raise (ValueError ("Could not parse size: " ++ s))
  | Some (num, unit) =>
      (val <- float_of_str os (encode num) ;;
       let unit :=
         encode (map upper_letter (match unit with Some u => u | None => [66%N] end)) in
       match scale unit with
       | None => Raise (ValueError ("Unsupported unit: " ++ unit))
       | Some k =>
           kf <- float_of_int k ;;
           int_of_float (val * kf)%float
       end)%result
  end.

(** The loop of [ffprobe_duration] over the streams: the first stream that
    is an audio stream and has a duration decides. *)
Fixpoint first_audio_duration (streams : list stream_info) : result (option float) :=
  match streams with
  | [] => Ok None
  | s :: rest =>
      match s_codec_type s, s_duration s with
      | Some t, Some d =>
          if String.eqb t "audio" then
            (x <- float_of_str os d ;; Ok (Some x))%result
          else first_audio_duration rest
      | _, _ => first_audio_duration rest
      end
  end.

Definition ffprobe_cmd (path : Path) : list string :=
  ["ffprobe"; "-v"; "error"; "-print_format"; "json"; "-show_format";
   "-show_streams"; str_path path].

Definition ffprobe_duration (path : Path) : M World float :=
  (r <- call (fun w => run_cmd os w (ffprobe_cmd path)) ;;
   if negb (returncode r =? 0) then
     raise (RuntimeError
              ("ffprobe failed for " ++ str_path path ++ ": " ++ strip (stderr r)))
   else
     info <- lift (json_loads os (if String.eqb (stdout r) "" then "{}" else stdout r)) ;;
     dur <- lift
       match i_format info with
       | Some (Some d) => (x <- float_of_str os d ;; Ok (Some x))%result
       | _ =>
           first_audio_duration
             (match i_streams info with Some l => l | None => [] end)
       end ;;
     match dur with
     | Some d =>
         if is_finite d then ret d
         else raise (RuntimeError ("Could not determine duration for " ++ str_path path))
     | None =>
         raise (RuntimeError ("Could not determine duration for " ++ str_path path))
     end)%monad.

(** *** Processing *)

(** The four blocks of [build_filterchain], each the list of what it
    appends to [filters]: nothing or one stage. *)
Definition silence_stage (args : Args) : list string :=
  let is_voice := preset_name_eqb (preset args) voice in
  if st args then
    let thr := match sth args with
               | Some x => float_repr os x
               | None => str_int (if is_voice then -50 else -45)
               end in
    let dur := float_repr os
                 match sd args with
                 | Some x => x
                 | None => if is_voice then 0.5%float else 0.8%float
                 end in
    [("silenceremove=start_periods=1:start_duration=" ++ dur
       ++ ":start_threshold=" ++ thr ++ "dB:"
       ++ "stop_periods=1:stop_duration=" ++ dur
       ++ ":stop_threshold=" ++ thr ++ "dB")%string]
  else [].

Definition highpass_stage (args : Args) (pc : preset_config) : list string :=
  let hp := or_else (hp args) (p_highpass pc) in
  if truthy_int hp then [("highpass=f=" ++ str_int (int_or hp 0))%string] else [].

Definition lowpass_stage (args : Args) (pc : preset_config) : list string :=
  let lp := or_else (lp args) (p_lowpass pc) in
  if truthy_int lp then [("lowpass=f=" ++ str_int (int_or lp 0))%string] else [].

Definition loudnorm_stage (args : Args) (pc : preset_config) : list string :=
  match or_else (lufs args) (p_lufs pc) with
  | Some x => [("loudnorm=I=" ++ float_repr os x ++ ":LRA=11:TP=-1.5")%string]
  | None => []
  end.

(** The list [filters] at the end of [build_filterchain]. *)
Definition build_filters (args : Args) (pc : preset_config) : list string :=
  silence_stage args ++ highpass_stage args pc ++ lowpass_stage args pc
  ++ loudnorm_stage args pc.

Definition build_filterchain (args : Args) (pc : preset_config) : string :=
  match build_filters args pc with
  | [] => ""
  | filters => String.concat "," filters
  end.

Definition build_ffmpeg_cmd (inp out : Path) (codec : string) (bitrate_bps : Z)
    (samplerate channels : Z) (filterchain : string) : result (list string) :=
  let cmd := ["ffmpeg"; "-y"; "-hide_banner"; "-loglevel"; "error"; "-i"; str_path inp] in
  let cmd := if String.eqb filterchain "" then cmd else cmd ++ ["-af"; filterchain] in
  let cmd := cmd ++ ["-ac"; str_int channels; "-ar"; str_int samplerate] in
  (cmd <-
     (if String.eqb codec "opus" then
        Ok (cmd ++ ["-c:a"; "libopus"; "-b:a"; str_int bitrate_bps; "-vbr"; "on";
                    "-compression_level"; "10"])
      else if String.eqb codec "aac" then
        Ok (cmd ++ ["-c:a"; "aac"; "-b:a"; str_int bitrate_bps])
      else if String.eqb codec "mp3" then
        Ok (cmd ++ ["-c:a"; "libmp3lame"; "-b:a"; str_int bitrate_bps])
      else Raise (ValueError ("Unsupported codec: " ++ codec))) ;;
   Ok (cmd ++ [str_path out]))%result.

(** Lines 245 to 247 of [compress_audio]: the options object is written. *)
Definition adjust_lowpass (args : Args) (bitrate_bps : Z) : Args :=
  if preset_name_eqb (preset args) voice && (bitrate_bps <=? 24000)
     && match lp args with None => true | Some _ => false end
  then set_lp args (Some 8000)
  else args.

(** Lines 233 to 258 of [compress_audio]: from the probed duration and the
    size of the input to the parameters of the encoder and the estimate of
    the output size.  The options object is returned as the job leaves
    it. *)
Definition plan_job (pc : preset_config) (duration : float) (original_size : Z)
    (args : Args) : Args * result Plan :=
  match determine_bitrate args duration pc with
  | Raise e => (args, Raise e)
  | Ok bitrate_bps =>
      let args := adjust_lowpass args bitrate_bps in
      let samplerate := int_or (sr args) (p_samplerate pc) in
      let channels := int_or (ch args) (p_channels pc) in
      let codec := str_or (codec args) (p_codec pc) in
      let filterchain := build_filterchain args pc in
      (args,
       (bf <- float_of_int bitrate_bps ;;
        est_size <- int_of_float (bf * duration / 8)%float ;;
        _ <- (if est_size <? original_size
              then true_div (original_size - est_size) original_size
              else Ok tt) ;;
        Ok (mkPlan bitrate_bps samplerate channels codec filterchain est_size))%result)
  end.

(** Lines 265 to 274 of [compress_audio]: the encoder command. *)
Definition job_of_plan (input_path output_path : Path) (p : Plan) : result Job :=
  (cmd <- build_ffmpeg_cmd input_path output_path (pl_codec p) (pl_bitrate_bps p)
            (pl_samplerate p) (pl_channels p) (pl_filterchain p) ;;
   Ok (mkJob (pl_bitrate_bps p) (pl_samplerate p) (pl_channels p) (pl_codec p)
         (pl_filterchain p) (pl_est_size p) cmd))%result.

(** Lines 233 to 274 of [compress_audio] without the [print] of lines 260 to
    263: the job that [compress_audio] hands to the encoder, and the options
    object as the job leaves it. *)
Definition prepare_job (input_path output_path : Path) (pc : preset_config)
    (duration : float) (original_size : Z) (args : Args) : Args * result Job :=
  let (args, r) := plan_job pc duration original_size args in
  (args, (p <- r ;; job_of_plan input_path output_path p)%result).

(** [print(...)] *)
Definition say (n : notice) : M World unit := call (fun w => os_print os w n).

(** Lines 276 to 292 of [compress_audio]: the encoder is run and its
    outcome is judged. *)
Definition run_encoder (output_path : Path) (original_size : Z) (job : Job)
  : M World bool :=
  (r <- call (fun w => run_cmd os w (j_cmd job)) ;;
   if negb (returncode r =? 0) then
     say (EncoderError (strip (stderr r))) ;;
     present <- ask (fun w => os_path_exists os w output_path) ;;
     (if present : bool then call (fun w => os_remove os w output_path) else ret tt) ;;
     ret false
   else
     present <- ask (fun w => os_path_exists os w output_path) ;;
     if present : bool then
       actual_size <- ask (fun w => os_path_getsize os w output_path) ;;
       actual_size <- lift actual_size ;;
       lift (true_div (original_size - actual_size) original_size) ;;
       say (ActualSize original_size actual_size) ;;
       ret true
     else ret false)%monad.

(** The body of the [try] of [compress_audio]. *)
Definition compress_audio_try (input_path output_path : Path) (pc : preset_config)
  : M World bool :=
  (duration <- ffprobe_duration input_path ;;
   original_size <- ask (fun w => os_path_getsize os w input_path) ;;
   original_size <- lift original_size ;;
   plan <- update_args (plan_job pc duration original_size) ;;
   say (Estimate input_path original_size (pl_est_size plan) (pl_bitrate_bps plan)
          (pl_codec plan)) ;;
   job <- lift (job_of_plan input_path output_path plan) ;;
   run_encoder output_path original_size job)%monad.

(** Lines 297 to 301, in the [except Exception] handler of
    [compress_audio]: a partial output is removed, and a failure to remove
    it is ignored. *)
Definition compress_audio_except (output_path : Path) (s : State World) : State World :=
  if os_path_exists os (world s) output_path then
    mkState (fst (os_remove os (world s) output_path)) (args s)
  else s.

(** [compress_audio].  The two [print] calls of the handler come before the
    clean-up and are not guarded: what they raise leaves the function. *)
Definition compress_audio (input_path output_path : Path) (pc : preset_config)
  : M World bool :=
  fun s =>
    if negb (os_path_exists os (world s) input_path) then
      (say (InputNotFound input_path) ;; ret false)%monad s
    else
      match compress_audio_try input_path output_path pc s with
      | (s1, Ok r) => (s1, Ok r)
      | (s1, Raise e) =>
          match say (JobError input_path e) s1 with
          | (s2, Ok _) => (compress_audio_except output_path s2, Ok false)
          | (s2, Raise e') => (s2, Raise e')
          end
      end.

(** *** The command line driver *)

(** The three branches of "Determine output path" in the loop of [main]. *)
Inductive output_mode : Type :=
| ExplicitFile
| IntoDirectory
| NextToInput.

Definition output_mode_of (args : Args) (single_file output_is_dir : bool)
  : output_mode :=
  if single_file && truthy_str (output args) && negb output_is_dir then ExplicitFile
  else if truthy_str (output args) && output_is_dir then IntoDirectory
  else NextToInput.

(** Lines 450 to 465 of [main], without the creation of the directory. *)
Definition derive_output_path (args : Args) (pc : preset_config)
    (single_file output_is_dir : bool) (audio_file : Path) : Path :=
  match output_mode_of args single_file output_is_dir with
  | ExplicitFile => PosixPath (str_or (output args) "")
  | IntoDirectory =>
      let output_dir := PosixPath (str_or (output args) "") in
      let codec := str_or (codec args) (p_codec pc) in
      let ext := normalize_ext_for_codec codec in
      joinpath output_dir (stem audio_file ++ ext)
  | NextToInput =>
      let codec := str_or (codec args) (p_codec pc) in
      let ext := normalize_ext_for_codec codec in
      joinpath (parent audio_file) (stem audio_file ++ suffix args ++ ext)
  end.

(** Lines 467 to 469 of [main]: the input is not overwritten. *)
Definition avoid_input (audio_file output_path : Path) : Path :=
  if Path_eqb output_path audio_file then
    joinpath (parent audio_file)
      (stem audio_file ++ "-compressed" ++ path_suffix audio_file)
  else output_path.

Definition choose_output_path (args : Args) (pc : preset_config)
    (single_file output_is_dir : bool) (audio_file : Path) : Path :=
  avoid_input audio_file
    (derive_output_path args pc single_file output_is_dir audio_file).

(** Line 456 of [main]: in the second output mode the output directory is
    created, at every turn.  This is not inside any [try]. *)
Definition make_output_dir (single_file output_is_dir : bool) : M World unit :=
  fun s =>
    match output_mode_of (args s) single_file output_is_dir with
    | IntoDirectory =>
        call (fun w => path_mkdir os w (PosixPath (str_or (output (args s)) ""))) s
    | _ => (s, Ok tt)
    end.

(** One turn of the loop of [main], up to the counters: the output
    directory is created when there is one, the output path is chosen, the
    job is run and an empty line is printed. *)
Definition process_file (pc : preset_config) (single_file output_is_dir : bool)
    (audio_file : Path) (s : State World) : State World * result bool :=
  match make_output_dir single_file output_is_dir s with
  | (s1, Raise e) => (s1, Raise e)
  | (s1, Ok _) =>
      let output_path :=
        choose_output_path (args s1) pc single_file output_is_dir audio_file in
      match compress_audio audio_file output_path pc s1 with
      | (s2, Raise e) => (s2, Raise e)
      | (s2, Ok r) =>
          match say BlankLine s2 with
          | (s3, Raise e) => (s3, Raise e)
          | (s3, Ok _) => (s3, Ok r)
          end
      end
  end.

(** The loop of [main] with its two counters. *)
Fixpoint process_files (pc : preset_config) (single_file output_is_dir : bool)
    (audio_files : list Path) (s : State World) (success_count failed_count : Z)
  : State World * result (Z * Z) :=
  match audio_files with
  | [] => (s, Ok (success_count, failed_count))
  | audio_file :: rest =>
      match process_file pc single_file output_is_dir audio_file s with
      | (s1, Raise e) => (s1, Raise e)
      | (s1, Ok true) =>
          process_files pc single_file output_is_dir rest s1
            (success_count + 1) failed_count
      | (s1, Ok false) =>
          process_files pc single_file output_is_dir rest s1
            success_count (failed_count + 1)
      end
  end.

(** Lines 419 to 427 of [main]. *)
Definition parse_target_size (args : Args) : result (option Z) :=
  match target_size args with
  | Some s =>
      if String.eqb s "" then Ok None
      else (n <- human_to_bytes s ;; Ok (Some n))%result
  | None => Ok None
  end.

(** [main] up to the loop: either the run ends here, or the loop starts on
    these files with these options and this value of [output_is_dir]. *)
Definition main_prologue (args : Args) (w : World)
  : run_result + (Args * list Path * bool) :=
  if list_presets args then inl Listed
  else if negb (require_ffmpeg w) then inl (SysExit 1)
  else
    let audio_files := collect_inputs os w (map PosixPath (paths args)) in
    match audio_files with
    | [] => inl (SysExit 1)
    | _ :: _ =>
        match parse_target_size args with
        | Raise _ => inl (SysExit 1)
        | Ok parsed =>
            let args := set_parsed args parsed in
            let single_file := (List.length audio_files =? 1)%nat in
            let output_is_dir :=
              truthy_str (output args)
              && (path_is_dir os w (PosixPath (str_or (output args) ""))
                  || negb single_file) in
            inr (args, audio_files, output_is_dir)
        end
    end.

(** What [main] prints before the loop, or instead of it. *)
Definition prologue_notice (args : Args) (w : World) : notice :=
  if list_presets args then PresetList
  else if negb (shutil_which os w "ffmpeg") then MissingTool "ffmpeg"
  else if negb (shutil_which os w "ffprobe") then MissingTool "ffprobe"
  else
    let audio_files := collect_inputs os w (map PosixPath (paths args)) in
    match audio_files with
    | [] => NoAudioFiles
    | _ :: _ =>
        match parse_target_size args with
        | Raise e => SizeError e
        | Ok _ => RunHeader (List.length audio_files) (preset args)
        end
    end.

(** [main], once the command line is parsed.  On each way through the
    lines before the loop the script prints once, after the last question
    it asks the world. *)
Definition main (args : Args) (w : World) : World * run_result :=
  match os_print os w (prologue_notice args w) with
  | (w1, Raise e) => (w1, Uncaught e)
  | (w1, Ok _) =>
      match main_prologue args w with
      | inl r => (w1, r)
      | inr (args, audio_files, output_is_dir) =>
          let pc := PRESETS (preset args) in
          let single_file := (List.length audio_files =? 1)%nat in
          match process_files pc single_file output_is_dir audio_files
                  (mkState w1 args) 0 0 with
          | (s, Ok (success_count, failed_count)) =>
              match os_print os (world s) (Summary success_count failed_count) with
              | (w2, Ok _) => (w2, Completed success_count failed_count)
              | (w2, Raise e) => (w2, Uncaught e)
              end
          | (s, Raise e) => (world s, Uncaught e)
          end
      end
  end.

End Program.

(** * The vocabulary of the properties *)

(** ** Text and paths *)

(** A run of decimal digits. *)
Definition all_digits (g : list N) : Prop :=
  forall c, In c g -> is_digit c = true.

(** A run of white space. *)
Definition all_space (w : list N) : Prop :=
  forall c, In c w -> is_space c = true.

(** The language of [^\s*(\d+)\s*[kK]?\s*$], with group 1 named: the
    characters of [s] are white space, the digits [g], white space, at most
    one letter k, white space. *)
Definition bitrate_pattern (s : string) (g : list N) : Prop :=
  exists w1 w2 k w3,
    decode s = w1 ++ g ++ w2 ++ k ++ w3
    /\ all_space w1 /\ all_digits g /\ g <> [] /\ all_space w2
    /\ (k = [] \/ k = [107%N] \/ k = [75%N]) /\ all_space w3.


(** The characters of a decimal numeral. *)
Fixpoint digit_codes (d : Decimal.uint) : list N :=
  match d with
  | Decimal.Nil => []
  | Decimal.D0 r => 48%N :: digit_codes r
  | Decimal.D1 r => 49%N :: digit_codes r
  | Decimal.D2 r => 50%N :: digit_codes r
  | Decimal.D3 r => 51%N :: digit_codes r
  | Decimal.D4 r => 52%N :: digit_codes r
  | Decimal.D5 r => 53%N :: digit_codes r
  | Decimal.D6 r => 54%N :: digit_codes r
  | Decimal.D7 r => 55%N :: digit_codes r
  | Decimal.D8 r => 56%N :: digit_codes r
  | Decimal.D9 r => 57%N :: digit_codes r
  end.

(** The white space characters. *)
Definition spaces : list N :=
  [9; 10; 11; 12; 13; 28; 29; 30; 31; 32; 133; 160; 5760; 8192; 8193; 8194;
   8195; 8196; 8197; 8198; 8199; 8200; 8201; 8202; 8232; 8233; 8239; 8287;
   12288]%N.

(** A string without a slash. *)
Fixpoint no_slash (s : string) : bool :=
  match s with
  | EmptyString => true
  | String c r => negb (Ascii.eqb c "/") && no_slash r
  end.

(** The name of a stage: what stands before the first equals sign. *)
Fixpoint stage_name (s : string) : string :=
  match s with
  | EmptyString => EmptyString
  | String c r => if Ascii.eqb c "=" then EmptyString else String c (stage_name r)
  end.

(** ** Probing *)

(** An audio stream that reports a duration. *)
Definition reports_audio_duration (s : stream_info) : bool :=
  match s_codec_type s, s_duration s with
  | Some t, Some _ => String.eqb t "audio"
  | _, _ => false
  end.

(** The duration that the output of the probe offers, in the words of the
    specification: the duration of the container when there is one, else
    the first duration that an audio stream reports. *)
Definition duration_source (info : probe_info) : option string :=
  match i_format info with
  | Some (Some d) => Some d
  | _ =>
      match find reports_audio_duration
              (match i_streams info with Some l => l | None => [] end) with
      | Some s => s_duration s
      | None => None
      end
  end.

(** The text handed to the JSON reader: [out or "{}"]. *)
Definition probe_text (p : proc) : string :=
  if String.eqb (stdout p) "" then "{}" else stdout p.

(** ** Jobs and runs *)

(** How a job ends, seen from inside [compress_audio]. *)
Inductive outcome : Type :=
| Succeeded
| Failed
| Raised (e : exn)
| InputMissing.

(** [compress_audio] returns [True]. *)
Definition succeeded (o : outcome) : bool :=
  match o with Succeeded => true | _ => false end.



Section Vocabulary.

Context {World : Type} (os : OS World).

(** The probe succeeds with the duration [d]. *)
Definition probe_succeeds (path : Path) (w : World) (d : float) : Prop :=
  exists p info text,
    snd (run_cmd os w (ffprobe_cmd path)) = Ok p
    /\ returncode p = 0
    /\ json_loads os (probe_text p) = Ok info
    /\ duration_source info = Some text
    /\ float_of_str os text = Ok d
    /\ is_finite d = true.

(** Why a probe fails: the tool cannot be run, or exits non-zero, or its
    output is not JSON, or offers no duration, or offers one that is not a
    number, or one that is not finite. *)
Definition probe_fails (path : Path) (w : World) : Prop :=
  match snd (run_cmd os w (ffprobe_cmd path)) with
  | Raise _ => True
  | Ok p =>
      returncode p <> 0
      \/ match json_loads os (probe_text p) with
         | Raise _ => True
         | Ok info =>
             match duration_source info with
             | None => True
             | Some text =>
                 match float_of_str os text with
                 | Raise _ => True
                 | Ok d => is_finite d = false
                 end
             end
         end
  end.

(** A computation that leaves the options object alone. *)
Definition keeps_args {A : Type} (m : M World A) : Prop :=
  forall s, args (fst (m s)) = args s.

(** What a job reads before it resolves its parameters: the duration and the
    size of the input, when the input exists and both can be had. *)
Definition job_inputs (f : Path) (s : State World) : option (float * Z) :=
  if os_path_exists os (world s) f then
    match ffprobe_duration os f s with
    | (s1, Ok d) =>
        match os_path_getsize os (world s1) f with
        | Ok size => Some (d, size)
        | Raise _ => None
        end
    | (_, Raise _) => None
    end
  else None.

(** How the job of [f] ends when it starts in the state [s]. *)
Definition job_outcome (f out : Path) (pc : preset_config) (s : State World)
  : outcome :=
  if os_path_exists os (world s) f then
    match snd (compress_audio_try os f out pc s) with
    | Ok true => Succeeded
    | Ok false => Failed
    | Raise e => Raised e
    end
  else InputMissing.

(** Everything can be printed. *)
Definition print_never_fails : Prop :=
  forall w n, snd (os_print os w n) = Ok tt.






End Vocabulary.

(** * A small world for the examples

    The state of the world is the list of the commands run so far.  Files
    are told apart by name; [ffprobe] answers with a line of text that the
    JSON reader of this world understands. *)

Definition demo_probe (file : string) : proc :=
  if String.eqb file "long.wav" then mkProc 0 "container:1200.0" ""
  else if String.eqb file "short.wav" then mkProc 0 "container:60.0" ""
  else if String.eqb file "track.wav" then mkProc 0 "container:300.0" ""
  else if String.eqb file "still.wav" then mkProc 0 "container:0.0" ""
  else if String.eqb file "stream.wav" then mkProc 0 "stream:42.0" ""
  else mkProc 1 "" "Invalid data found when processing input".

Definition demo_json_loads (s : string) : result probe_info :=
  if String.prefix "container:" s then
    Ok (mkInfo (Some (Some (substring 10 (String.length s - 10) s)))
          (Some [mkStream (Some "audio") None]))
  else if String.prefix "stream:" s then
    Ok (mkInfo (Some None)
          (Some [mkStream (Some "video") (Some "1.0");
                 mkStream (Some "audio") None;
                 mkStream (Some "audio") (Some (substring 7 (String.length s - 7) s))]))
  else if String.eqb s "{}" then Ok (mkInfo None None)
  else Raise (ValueError "Expecting value").

Definition demo_float_of_str (s : string) : result float :=
  if String.eqb s "1200.0" then Ok 1200%float
  else if String.eqb s "300.0" then Ok 300%float
  else if String.eqb s "60.0" then Ok 60%float
  else if String.eqb s "42.0" then Ok 42%float
  else if String.eqb s "900" then Ok 900%float
  else if String.eqb s "2.5" then Ok 2.5%float
  else if String.eqb s "1.0" then Ok 1%float
  else if String.eqb s "1" then Ok 1%float
  else if String.eqb s "0.0" then Ok 0%float
  else if String.eqb s "0" then Ok 0%float
  else Raise (ValueError ("could not convert string to float: " ++ s)).

Definition demo_float_repr (x : float) : string :=
  if (x =? -16)%float then "-16.0"
  else if (x =? -14)%float then "-14.0"
  else if (x =? 0.5)%float then "0.5"
  else if (x =? 0.8)%float then "0.8"
  else "0.0".

(** The small world, but for the creation of directories and the standard
    output. *)
Definition demo_os_with
    (mkdir : list (list string) -> Path -> list (list string) * result unit)
    (print : list (list string) -> notice -> list (list string) * result unit)
  : OS (list (list string)) :=
  mkOS (list (list string))
    (fun _ _ => true)
    (fun _ ps => ps)
    (fun _ p => negb (String.eqb (name p) "missing.wav"))
    (fun _ _ => Ok 4000000)
    (fun w _ => (w, Ok tt))
    (fun _ _ => false)
    mkdir
    (fun w cmd =>
       (w ++ [cmd],
        Ok (if String.eqb (hd "" cmd) "ffprobe" then demo_probe (last cmd "")
            else mkProc 0 "" "")))
    demo_json_loads
    demo_float_of_str
    demo_float_repr
    print
    (fun _ _ _ => eq_refl).

(** Directories can be created and everything can be printed. *)
Definition demo_os : OS (list (list string)) :=
  demo_os_with (fun w _ => (w, Ok tt)) (fun w _ => (w, Ok tt)).



(** [tinyaudio_cli.py] with the given paths and nothing else: the defaults
    of the parser. *)
Definition default_args (paths : list string) : Args :=
  mkArgs paths DEFAULT_PRESET None "" None None None None None None false None
    None None None false None None None None.

Definition with_bitrate (a : Args) (v : option string) : Args :=
  mkArgs (paths a) (preset a) (output a) (suffix a) (codec a) v
    (target_size a) (samplerate a) (channels a) (lufs a) (st a) (sth a)
    (sd a) (hp a) (lp a) (list_presets a) (ts a) (b a) (sr a) (ch a).

Definition with_target_size (a : Args) (v : option string) : Args :=
  mkArgs (paths a) (preset a) (output a) (suffix a) (codec a) (bitrate a)
    v (samplerate a) (channels a) (lufs a) (st a) (sth a)
    (sd a) (hp a) (lp a) (list_presets a) (ts a) (b a) (sr a) (ch a).

Definition with_output (a : Args) (v : option string) : Args :=
  mkArgs (paths a) (preset a) v (suffix a) (codec a) (bitrate a)
    (target_size a) (samplerate a) (channels a) (lufs a) (st a) (sth a)
    (sd a) (hp a) (lp a) (list_presets a) (ts a) (b a) (sr a) (ch a).


(** A preset outside the catalog that asks for no filter at all. *)
Definition bare_preset : preset_config :=
  mkPreset 48000 2 96000 "mp3" None None None "No filtering".

(** The options after [main] has stored [-b 1] and no target size. *)
Definition args_b1 : Args :=
  set_parsed (with_bitrate (default_args ["track.wav"]) (Some "1")) None.

(** The options after [main] has stored [-b 20] and [-b 40]. *)
Definition args_b20 : Args :=
  set_parsed (with_bitrate (default_args ["track.wav"]) (Some "20")) None.

Definition args_b40 : Args :=
  set_parsed (with_bitrate (default_args ["track.wav"]) (Some "40")) None.

(** The options after [main] has stored a target of 2,500,000 bytes next to
    [-b 64k]. *)
Definition args_ts_and_b : Args :=
  set_parsed (with_bitrate (default_args ["track.wav"]) (Some "64k")) (Some 2500000).

(** The options after [main] has read [-ts 0 -b 64k]. *)
Definition args_ts0_b64k : Args :=
  with_bitrate (with_target_size (default_args ["track.wav"]) (Some "0")) (Some "64k").


(** The options after [main] has stored [-p music -b fast], and
    [-p music --codec aac]. *)
Definition args_fast : Args :=
  set_parsed
    (mkArgs ["long.wav"] music None "" None (Some "fast") None None None None false
       None None None None false None None None None) None.

Definition args_aac : Args :=
  set_parsed
    (mkArgs ["long.wav"] music None "" (Some "aac") None None None None None false
       None None None None false None None None None) None.

(** The decimal numeral of [10 ^ 4300]: a one and 4300 zeros. *)
Definition long_numeral : string := str_int (10 ^ 4300).


(** * File discovery

    [collect_inputs], lines 305 to 317.  [Path.is_file], [Path.is_dir] and
    [os.walk] are what the file system answers; [os.walk] gives, for each
    directory under its argument, the directory as a string and the names of
    its files.  [sorted] is an insertion sort by the order handed in: the
    order of paths is that of [pathlib], which differs between versions of
    Python where absolute and relative paths meet. *)

Module Discovery.

Section Discovery.

Variable is_file : Path -> bool.
Variable is_dir : Path -> bool.
Variable os_walk : Path -> list (string * list string).
Variable path_leb : Path -> Path -> bool.

(** [p.suffix.lower() in AUDIO_EXTS] *)
Definition has_audio_ext (p : Path) : bool :=
  existsb (String.eqb (lower (path_suffix p))) AUDIO_EXTS.

(** The two inner loops over the directories and files of a walk. *)
Definition walk_files (entries : list (string * list string)) : list Path :=
  flat_map
    (fun entry =>
       map (fun f => joinpath (PosixPath (fst entry)) f)
         (filter (fun f => has_audio_ext (PosixPath f)) (snd entry)))
    entries.

(** The list [files] at the end of the outer loop. *)
Definition found (paths : list Path) : list Path :=
  flat_map
    (fun p =>
       if is_file p && has_audio_ext p then [p]
       else if is_dir p then walk_files (os_walk p)
       else [])
    paths.

Definition Path_eq_dec (p q : Path) : {p = q} + {p <> q}.
Proof. decide equality; [apply (list_eq_dec string_dec) | apply string_dec]. Defined.

Fixpoint insert_path (p : Path) (l : list Path) : list Path :=
  match l with
  | [] => [p]
  | q :: r => if path_leb p q then p :: l else q :: insert_path p r
  end.

Fixpoint sort_paths (l : list Path) : list Path :=
  match l with
  | [] => []
  | p :: r => insert_path p (sort_paths r)
  end.

(** [sorted(set(files))] *)
Definition collect_inputs (paths : list Path) : list Path :=
  sort_paths (nodup Path_eq_dec (found paths)).

End Discovery.

End Discovery.

(** * More vocabulary *)






(** A name that [pathlib] keeps as one name: not empty, not a dot, without
    a slash. *)
Definition plain_name (s : string) : bool := is_name s && no_slash s.

(** [os.remove] succeeds and the file is gone afterwards. *)
Definition remove_works {World : Type} (os : OS World) : Prop :=
  forall w p,
    snd (os_remove os w p) = Ok tt
    /\ os_path_exists os (fst (os_remove os w p)) p = false.

(** * A world with files

    The state of the world is the list of the files that exist.  [ffmpeg]
    writes its last argument; on [short.wav] it writes a partial file and
    exits with status 1.  [os.remove] removes. *)

Definition fs_exists (w : list Path) (p : Path) : bool := existsb (Path_eqb p) w.

Definition fs_os : OS (list Path) :=
  mkOS (list Path)
    (fun _ _ => true)
    (fun _ ps => ps)
    fs_exists
    (fun _ _ => Ok 4000000)
    (fun w p => (filter (fun q => negb (Path_eqb p q)) w, Ok tt))
    (fun _ _ => false)
    (fun w _ => (w, Ok tt))
    (fun w cmd =>
       if String.eqb (hd "" cmd) "ffprobe" then (w, Ok (demo_probe (last cmd "")))
       else
         (w ++ [PosixPath (last cmd "")],
          Ok (if String.eqb (nth 6 cmd "") "short.wav"
              then mkProc 1 "" "Conversion failed!"
              else mkProc 0 "" "")))
    demo_json_loads
    demo_float_of_str
    demo_float_repr
    (fun w _ => (w, Ok tt))
    (fun _ _ _ => eq_refl).

(** The files before a run in this world. *)
Definition fs_start : list Path :=
  [PosixPath "long.wav"; PosixPath "short.wav"; PosixPath "broken.wav";
   PosixPath "broken.opus"].







(** The values that the parser lets through for [--codec]: the option is
    absent, or it is one of the three choices of line 352. *)
Definition cli_codec (a : Args) : Prop :=
  codec a = None \/ codec a = Some "opus" \/ codec a = Some "aac"
  \/ codec a = Some "mp3".

(** * Properties *)

(** ** Decimal text *)

Lemma string_eqb_nil_false (s : string) : s <> "" -> String.eqb s "" = false.
Proof. intros H. now apply String.eqb_neq. Qed.

Lemma string_app_nil_r (s : string) : (s ++ "")%string = s.
Proof. induction s as [| c s IH]; simpl; [reflexivity | now rewrite IH]. Qed.

Lemma string_length_nonempty (s : string) :
  (String.length s =? 0)%nat = false -> s <> "".
Proof. intros H ->. discriminate. Qed.

(** A decimal numeral is ASCII text: its characters are its bytes. *)
Lemma decode_numeral (d : Decimal.uint) (t : string) :
  decode (NilEmpty.string_of_uint d ++ t) = digit_codes d ++ decode t.
Proof.
  induction d; cbn [NilEmpty.string_of_uint digit_codes String.append app];
    try reflexivity;
    cbn [decode]; change (N_of_ascii _ <? 128)%N with true; cbv iota;
    now rewrite IHd.
Qed.

Lemma digit_codes_digits (d : Decimal.uint) : all_digits (digit_codes d).
Proof.
  induction d; simpl; intros c Hc; try contradiction;
    destruct Hc as [<- | Hc]; try reflexivity; now apply IHd.
Qed.

Lemma uint_of_digit_codes (d : Decimal.uint) : uint_of_digits (digit_codes d) = d.
Proof.
  induction d; cbn [digit_codes uint_of_digits]; try reflexivity;
    rewrite IHd; reflexivity.
Qed.

Lemma digit_codes_length (d : Decimal.uint) :
  List.length (digit_codes d) = String.length (NilEmpty.string_of_uint d).
Proof. induction d; simpl; congruence. Qed.

Lemma to_uint_nonnil (n : N) : N.to_uint n <> Decimal.Nil.
Proof.
  destruct n as [| p]; simpl; [discriminate | apply DecimalPos.Unsigned.to_uint_nonnil].
Qed.

Lemma str_int_of_N (n : N) :
  str_int (Z.of_N n) = NilEmpty.string_of_uint (N.to_uint n).
Proof.
  unfold str_int. destruct n as [| p]; simpl; [reflexivity |].
  pose proof (DecimalPos.Unsigned.to_uint_nonnil p) as H.
  destruct (Pos.to_uint p); simpl; congruence.
Qed.

Lemma digit_codes_nonnil (n : N) : digit_codes (N.to_uint n) <> [].
Proof.
  pose proof (to_uint_nonnil n) as H.
  destruct (N.to_uint n); simpl; congruence.
Qed.

Lemma int_digits_numeral (n : N) : int_digits (digit_codes (N.to_uint n)) = Z.of_N n.
Proof.
  unfold int_digits. now rewrite uint_of_digit_codes, DecimalN.Unsigned.of_to.
Qed.

(** ** Character classes *)

Lemma is_space_spaces (c : N) : is_space c = true <-> In c spaces.
Proof.
  split.
  - unfold is_space. intros H.
    repeat (apply orb_true_iff in H as [H | H]);
      try (apply andb_true_iff in H as [H1 H2];
           apply N.leb_le in H1; apply N.leb_le in H2);
      try apply N.eqb_eq in H.
    all: unfold spaces.
    all: try (subst c; simpl; tauto).
    + assert (Hc : (c = 9 \/ c = 10 \/ c = 11 \/ c = 12 \/ c = 13)%N) by lia.
      simpl. intuition.
    + assert (Hc : (c = 28 \/ c = 29 \/ c = 30 \/ c = 31 \/ c = 32)%N) by lia.
      simpl. intuition.
    + assert (Hc : (c = 8192 \/ c = 8193 \/ c = 8194 \/ c = 8195 \/ c = 8196
                    \/ c = 8197 \/ c = 8198 \/ c = 8199 \/ c = 8200 \/ c = 8201
                    \/ c = 8202)%N) by lia.
      simpl. intuition.
  - unfold spaces. intros H. simpl in H.
    repeat (destruct H as [<- | H]; [reflexivity |]). contradiction.
Qed.

Lemma is_space_not_digit_or_dot (c : N) :
  is_space c = true -> is_digit_or_dot c = false.
Proof.
  intros H. apply is_space_spaces in H. unfold spaces in H. simpl in H.
  repeat (destruct H as [<- | H]; [reflexivity |]). contradiction.
Qed.

Lemma is_space_not_digit (c : N) : is_space c = true -> is_digit c = false.
Proof.
  intros H. apply is_space_not_digit_or_dot in H.
  unfold is_digit_or_dot in H. now apply orb_false_iff in H.
Qed.

Lemma is_digit_not_space (c : N) : is_digit c = true -> is_space c = false.
Proof.
  intros H. destruct (is_space c) eqn:Hs; [| reflexivity].
  apply is_space_not_digit in Hs. congruence.
Qed.

(** ** Scanning *)

Lemma take_run_app_stop (p : N -> bool) (g rest : list N) :
  (forall c, In c g -> p c = true) ->
  match rest with c :: _ => p c = false | [] => True end ->
  take_run p (g ++ rest) = (g, rest).
Proof.
  intros Hg Hrest. induction g as [| c g IH]; simpl.
  - destruct rest as [| c r]; simpl; [reflexivity | now rewrite Hrest].
  - rewrite (Hg c) by (simpl; now left).
    rewrite IH; [reflexivity |].
    intros x Hx. apply Hg. simpl. now right.
Qed.

Lemma take_run_split (p : N -> bool) (l : list N) :
  l = fst (take_run p l) ++ snd (take_run p l)
  /\ forall c, In c (fst (take_run p l)) -> p c = true.
Proof.
  induction l as [| c l [Hl Ha]]; simpl.
  - split; [reflexivity | intros c []].
  - destruct (p c) eqn:Hc.
    + destruct (take_run p l) as [a r]. simpl in *. split; [now rewrite <- Hl |].
      intros x [<- | Hx]; [assumption | now apply Ha].
    + split; [reflexivity | intros x []].
Qed.

Lemma skip_ws_split (l : list N) :
  exists w, l = w ++ skip_ws l /\ all_space w.
Proof.
  induction l as [| c l (w & Hl & Hw)]; simpl.
  - exists []. split; [reflexivity | intros c []].
  - destruct (is_space c) eqn:Hc.
    + exists (c :: w). split; [simpl; now rewrite <- Hl |].
      intros x [<- | Hx]; [assumption | now apply Hw].
    + exists []. split; [reflexivity | intros x []].
Qed.

Lemma skip_ws_app (w r : list N) :
  all_space w -> skip_ws (w ++ r) = skip_ws r.
Proof.
  intros Hw. induction w as [| c w IH]; simpl; [reflexivity |].
  rewrite (Hw c) by (simpl; now left).
  apply IH. intros x Hx. apply Hw. simpl. now right.
Qed.

Lemma skip_ws_nil (w : list N) : all_space w -> skip_ws w = [].
Proof.
  intros Hw. rewrite <- (app_nil_r w). now rewrite skip_ws_app.
Qed.

Lemma skip_ws_nil_inv (l : list N) : skip_ws l = [] -> all_space l.
Proof.
  intros H. destruct (skip_ws_split l) as (w & Hl & Hw).
  rewrite H, app_nil_r in Hl. now subst.
Qed.

Lemma skip_ws_start (c : N) (r : list N) :
  is_space c = false -> skip_ws (c :: r) = c :: r.
Proof. intros H. simpl. now rewrite H. Qed.

Lemma all_space_nil : all_space [].
Proof. intros c []. Qed.

Lemma all_space_starts (w r : list N) (P : N -> bool) :
  all_space w -> (forall c, is_space c = true -> P c = false) ->
  match r with c :: _ => P c = false | [] => True end ->
  match w ++ r with c :: _ => P c = false | [] => True end.
Proof.
  intros Hw HP Hr. destruct w as [| c w]; simpl; [assumption |].
  apply HP, Hw. simpl. now left.
Qed.

(** ** The bitrate pattern *)

(** [match_bitrate] decides the pattern and returns its group. *)
Lemma match_bitrate_spec (s : string) (g : list N) :
  match_bitrate s = Some g <-> bitrate_pattern s g.
Proof.
  unfold match_bitrate, bitrate_pattern. generalize (decode s) as l. intros l.
  split.
  - intros H.
    destruct (skip_ws_split l) as (w1 & Hl & Hw1).
    destruct (take_run_split is_digit (skip_ws l)) as [Hsp Hg].
    destruct (take_run is_digit (skip_ws l)) as [digits r1]. simpl in Hsp, Hg.
    destruct digits as [| d0 digits]; [discriminate |].
    destruct (skip_ws_split r1) as (w2 & Hr1 & Hw2).
    set (r2 := skip_ws r1) in *.
    assert (Hk : exists k r3, r2 = k ++ r3
                              /\ (k = [] \/ k = [107%N] \/ k = [75%N])
                              /\ skip_ws r3 = [] /\ g = d0 :: digits).
    { destruct r2 as [| c r]; [exists [], []; simpl in H; injection H as <-; auto |].
      destruct (N.eqb_spec c 107) as [-> | Ek];
        [| destruct (N.eqb_spec c 75) as [-> | EK]]; simpl in H.
      - exists [107%N], r. destruct (skip_ws r); [injection H as <-; auto | discriminate].
      - exists [75%N], r. destruct (skip_ws r); [injection H as <-; auto | discriminate].
      - exists [], (c :: r). simpl.
        destruct (if is_space c then skip_ws r else c :: r);
          [injection H as <-; auto | discriminate]. }
    destruct Hk as (k & r3 & Hr2 & Hkk & Hr3 & ->).
    exists w1, w2, k, r3. repeat split; trivial.
    + rewrite Hl at 1. rewrite Hsp at 1. rewrite Hr1 at 1. now rewrite Hr2.
    + discriminate.
    + now apply skip_ws_nil_inv.
  - intros (w1 & w2 & k & w3 & -> & Hw1 & Hg & Hne & Hw2 & Hk & Hw3).
    rewrite skip_ws_app by assumption.
    destruct g as [| d0 g]; [congruence |].
    assert (Hskip : skip_ws ((d0 :: g) ++ w2 ++ k ++ w3) = (d0 :: g) ++ w2 ++ k ++ w3).
    { simpl. now rewrite (is_digit_not_space d0 (Hg d0 (or_introl eq_refl))). }
    rewrite Hskip, take_run_app_stop; trivial.
    + rewrite skip_ws_app by assumption.
      destruct Hk as [-> | [-> | ->]]; simpl; rewrite ?(skip_ws_nil w3 Hw3); trivial.
    + apply all_space_starts; [assumption | apply is_space_not_digit |].
      destruct Hk as [-> | [-> | ->]]; simpl; trivial.
      destruct w3 as [| c w]; [exact I |].
      apply is_space_not_digit, Hw3. simpl. now left.
Qed.

(** A decimal numeral, followed by nothing or by the letter k, matches the
    bitrate pattern, and group 1 is the numeral. *)
Lemma match_bitrate_numeral (n : N) (tail : string) :
  tail = "" \/ tail = "k" \/ tail = "K" ->
  match_bitrate (str_int (Z.of_N n) ++ tail) = Some (digit_codes (N.to_uint n)).
Proof.
  intros Htail. apply match_bitrate_spec.
  exists [], [], (decode tail), []. rewrite str_int_of_N, decode_numeral.
  rewrite !app_nil_r. simpl.
  repeat split; try apply all_space_nil.
  - apply digit_codes_digits.
  - apply digit_codes_nonnil.
  - destruct Htail as [-> | [-> | ->]]; simpl; auto.
Qed.

(** ** Sizes *)

(** The sizes that the specification lists, in the small world. *)
Example human_to_bytes_examples :
  human_to_bytes demo_os "2.5MB" = Ok 2621440
  /\ human_to_bytes demo_os "900KB" = Ok 921600
  /\ human_to_bytes demo_os "1GB" = Ok 1073741824
  /\ is_ok (human_to_bytes demo_os "abc") = false
  /\ is_ok (human_to_bytes demo_os "5XB") = false.
Proof. repeat split; vm_compute; reflexivity. Qed.

(** ** The bitrate of a job *)

Lemma truthy_int_false (o : option Z) :
  truthy_int o = false -> o = None \/ o = Some 0.
Proof.
  destruct o as [n |]; simpl; [| now left].
  intros H. apply negb_false_iff, Z.eqb_eq in H. subst. now right.
Qed.

Lemma truthy_str_false (o : option string) :
  truthy_str o = false -> o = None \/ o = Some "".
Proof.
  destruct o as [s |]; simpl; [| now left].
  intros H. apply negb_false_iff, String.eqb_eq in H. subst. now right.
Qed.

(** The three branches of [determine_bitrate], one equation each. *)
Lemma determine_bitrate_target (a : Args) (d : float) (pc : preset_config) (n : Z) :
  ts a = Some n -> n <> 0 ->
  determine_bitrate a d pc = compute_bitrate_for_target_size n d.
Proof.
  intros Hts Hn. unfold determine_bitrate. rewrite Hts.
  apply Z.eqb_neq in Hn. now rewrite Hn.
Qed.

Lemma determine_bitrate_explicit (a : Args) (d : float) (pc : preset_config) (s : string) :
  truthy_int (ts a) = false -> b a = Some s -> s <> "" ->
  determine_bitrate a d pc =
  match match_bitrate s with
  | None => Raise (ValueError ("Invalid bitrate: " ++ s))
  | Some g => (n <- int_of_digits g ;; Ok (n * 1000))%result
  end.
Proof.
  intros Hts Hb Hs. unfold determine_bitrate.
  rewrite Hb, (string_eqb_nil_false s Hs).
  destruct (truthy_int_false _ Hts) as [-> | ->]; reflexivity.
Qed.

Lemma determine_bitrate_preset (a : Args) (d : float) (pc : preset_config) :
  truthy_int (ts a) = false -> truthy_str (b a) = false ->
  determine_bitrate a d pc = Ok (p_bitrate_bps pc).
Proof.
  intros Hts Hb. unfold determine_bitrate.
  destruct (truthy_int_false _ Hts) as [-> | ->];
    destruct (truthy_str_false _ Hb) as [-> | ->]; reflexivity.
Qed.

Lemma compute_bitrate_bounds (n : Z) (d : float) (br : Z) :
  compute_bitrate_for_target_size n d = Ok br -> 6000 <= br <= 512000.
Proof.
  unfold compute_bitrate_for_target_size.
  destruct (d <=? 0)%float; [discriminate |].
  destruct (float_of_int (n * 8)) as [x |]; simpl; [| discriminate].
  destruct (int_of_float _) as [y |]; simpl; [| discriminate].
  intros [= <-]. lia.
Qed.

Lemma int_digits_nonneg (g : list N) : 0 <= int_digits g.
Proof. unfold int_digits. lia. Qed.

(** [int] converts a run of digits exactly when it is short enough. *)
Lemma int_of_digits_ok (g : list N) (v : Z) :
  int_of_digits g = Ok v
  <-> v = int_digits g /\ (List.length g <= int_max_str_digits)%nat.
Proof.
  unfold int_of_digits.
  destruct (Nat.ltb_spec int_max_str_digits (List.length g)).
  - split; [discriminate | intros [_ ?]; lia].
  - split; [intros [= <-]; split; [reflexivity | lia] | intros [-> _]; reflexivity].
Qed.

Lemma int_of_digits_long (g : list N) :
  (int_max_str_digits < List.length g)%nat ->
  int_of_digits g = Raise (ValueError (int_limit_message (List.length g))).
Proof.
  intros H. unfold int_of_digits. apply Nat.ltb_lt in H. now rewrite H.
Qed.

(** A positive duration passes the guard [duration_sec <= 0]. *)
Lemma positive_not_le_zero (d : float) :
  (0 <? d)%float = true -> (d <=? 0)%float = false.
Proof.
  rewrite ltb_spec, leb_spec.
  change (Prim2SF 0) with (S754_zero false).
  unfold SFltb, SFleb.
  destruct (Prim2SF d) as [s | s | | s m e]; simpl; try discriminate;
    destruct s; simpl; congruence.
Qed.

Section Job.

Context {World : Type} (os : OS World).

(** What [plan_job] does to the options object, and which parameters the
    plan carries. *)
Lemma plan_job_inv (pc : preset_config) (d : float) (size : Z) (a a' : Args)
    (p : Plan) :
  plan_job os pc d size a = (a', Ok p) ->
  determine_bitrate a d pc = Ok (pl_bitrate_bps p)
  /\ a' = adjust_lowpass a (pl_bitrate_bps p)
  /\ pl_filterchain p = build_filterchain os a' pc
  /\ pl_codec p = str_or (codec a') (p_codec pc).
Proof.
  unfold plan_job.
  destruct (determine_bitrate a d pc) as [br | e]; [| intros [= _ ?]; discriminate].
  intros [= Ha H]. subst a'.
  destruct (float_of_int br) as [bf |]; simpl in H; [| discriminate].
  destruct (int_of_float _) as [est |]; simpl in H; [| discriminate].
  destruct (if est <? size then _ else _); simpl in H; [| discriminate].
  injection H as <-. simpl. auto.
Qed.

Lemma plan_job_args (pc : preset_config) (d : float) (size : Z) (a : Args) :
  fst (plan_job os pc d size a) =
  match determine_bitrate a d pc with
  | Ok br => adjust_lowpass a br
  | Raise _ => a
  end.
Proof. unfold plan_job. now destruct (determine_bitrate a d pc). Qed.

(** [prepare_job] is the plan and then the command. *)
Lemma prepare_job_plan (inp out : Path) (pc : preset_config) (d : float) (size : Z)
    (a a' : Args) (job : Job) :
  prepare_job os inp out pc d size a = (a', Ok job)
  <-> exists p, plan_job os pc d size a = (a', Ok p) /\ job_of_plan inp out p = Ok job.
Proof.
  unfold prepare_job.
  destruct (plan_job os pc d size a) as [a1 [p | e]]; simpl.
  - split.
    + intros [= <- H]. exists p. auto.
    + intros (p' & [= <- <-] & H). now rewrite H.
  - split; [discriminate | intros (p' & [=] & _)].
Qed.

Lemma job_of_plan_inv (inp out : Path) (p : Plan) (job : Job) :
  job_of_plan inp out p = Ok job ->
  j_bitrate_bps job = pl_bitrate_bps p
  /\ j_filterchain job = pl_filterchain p
  /\ j_codec job = pl_codec p
  /\ j_est_size job = pl_est_size p
  /\ build_ffmpeg_cmd inp out (j_codec job) (j_bitrate_bps job) (j_samplerate job)
       (j_channels job) (j_filterchain job) = Ok (j_cmd job).
Proof.
  unfold job_of_plan.
  destruct (build_ffmpeg_cmd _ _ _ _ _ _ _) as [cmd |] eqn:Hcmd; simpl;
    [| discriminate].
  intros [= <-]. simpl. auto.
Qed.

(** What [prepare_job] does to the options object, and which bitrate the
    job carries. *)
Lemma prepare_job_inv (inp out : Path) (pc : preset_config) (d : float) (size : Z)
    (a a' : Args) (job : Job) :
  prepare_job os inp out pc d size a = (a', Ok job) ->
  determine_bitrate a d pc = Ok (j_bitrate_bps job)
  /\ a' = adjust_lowpass a (j_bitrate_bps job)
  /\ j_filterchain job = build_filterchain os a' pc
  /\ build_ffmpeg_cmd inp out (j_codec job) (j_bitrate_bps job) (j_samplerate job)
       (j_channels job) (j_filterchain job) = Ok (j_cmd job).
Proof.
  intros H. apply prepare_job_plan in H as (p & Hp & Hj).
  apply plan_job_inv in Hp as (Hbr & Ha & Hf & _).
  apply job_of_plan_inv in Hj as (-> & -> & _ & _ & Hcmd). auto.
Qed.

End Job.

(** C1, as amended.  The bitrate a job is encoded at lies within
    [6000, 512000] when it comes from a target size of at least one byte, or
    from the default of a preset of the catalog.  An explicit bitrate string
    is used as it is, its digits times 1000, without any clamp. *)
Theorem encoding_bitrate_bounds {World : Type} (os : OS World) (inp out : Path)
    (p : preset_name) (d : float) (size : Z) (a a' : Args) (job : Job) :
  prepare_job os inp out (PRESETS p) d size a = (a', Ok job) ->
  (truthy_int (ts a) = true -> 6000 <= j_bitrate_bps job <= 512000)
  /\ (truthy_int (ts a) = false -> truthy_str (b a) = false ->
      j_bitrate_bps job = p_bitrate_bps (PRESETS p)
      /\ 6000 <= j_bitrate_bps job <= 512000)
  /\ (truthy_int (ts a) = false -> forall s, b a = Some s -> s <> "" ->
      exists g, match_bitrate s = Some g
                /\ j_bitrate_bps job = int_digits g * 1000
                /\ (6000 <= j_bitrate_bps job <= 512000 <-> 6 <= int_digits g <= 512)).
Proof.
  intros H. apply prepare_job_inv in H as (Hbr & _).
  split; [| split].
  - intros Hts. destruct (ts a) as [n |] eqn:E; simpl in Hts; try discriminate.
    apply negb_true_iff, Z.eqb_neq in Hts.
    rewrite (determine_bitrate_target a d _ n E Hts) in Hbr.
    now apply compute_bitrate_bounds in Hbr.
  - intros Hts Hb.
    rewrite determine_bitrate_preset in Hbr by assumption.
    injection Hbr as <-. destruct p; simpl; lia.
  - intros Hts s Hb Hs.
    rewrite (determine_bitrate_explicit a d _ s Hts Hb Hs) in Hbr.
    destruct (match_bitrate s) as [g |]; [| discriminate].
    destruct (int_of_digits g) as [v |] eqn:Hv; [| discriminate].
    apply int_of_digits_ok in Hv as [-> _].
    injection Hbr as <-. exists g. repeat split; lia.
Qed.

Lemma encoding_bitrate_bounds_witness :
  match prepare_job demo_os (PosixPath "track.wav") (PosixPath "track.opus")
          (PRESETS voice) 300 4000000 (default_args ["track.wav"]) with
  | (_, Ok job) => j_bitrate_bps job = 32000 /\ 6000 <= j_bitrate_bps job <= 512000
  | (_, Raise _) => False
  end.
Proof.
  destruct (prepare_job demo_os (PosixPath "track.wav") (PosixPath "track.opus")
              (PRESETS voice) 300 4000000 (default_args ["track.wav"]))
    as [a' [job | e]] eqn:E.
  - apply (encoding_bitrate_bounds demo_os _ _ voice _ _ _ _ _ E); reflexivity.
  - vm_compute in E. discriminate.
Defined.

(** C1 as stated fails: with [-b 1] the job is encoded at 1000 bits per
    second, below the claimed lower bound. *)
Lemma encoding_bitrate_unclamped :
  exists job,
    snd (prepare_job demo_os (PosixPath "track.wav") (PosixPath "track.opus")
           (PRESETS voice) 300 4000000 args_b1) = Ok job
    /\ j_bitrate_bps job = 1000
    /\ In "1000" (j_cmd job)
    /\ ~ (6000 <= j_bitrate_bps job <= 512000).
Proof.
  eexists. split; [vm_compute; reflexivity |]. simpl.
  repeat split; [tauto | lia].
Qed.

(** C2, as amended.  For a job with a positive probed duration: a target
    size of at least one byte decides the bitrate, whatever the explicit
    bitrate is; the candidate is [float(target_bytes * 8) * 0.97 / duration]
    in binary64 arithmetic, truncated, then clamped, and the job fails when
    that computation overflows.  Without a target size, a non-empty
    explicit bitrate string decides, whatever the preset says; without
    either, the preset does.  2,500,000 bytes over 300 seconds give 64666. *)
Theorem bitrate_source_precedence (a : Args) (d : float) (pc : preset_config) :
  (0 <? d)%float = true ->
  (forall n, ts a = Some n -> 1 <= n ->
     determine_bitrate a d pc =
     (x <- float_of_int (n * 8) ;;
      br <- int_of_float (x * 0.97 / d)%float ;;
      Ok (Z.max 6000 (Z.min br 512000)))%result)
  /\ (ts a = None -> forall s, b a = Some s -> s <> "" ->
      determine_bitrate a d pc =
      match match_bitrate s with
      | None => Raise (ValueError ("Invalid bitrate: " ++ s))
      | Some g => (n <- int_of_digits g ;; Ok (n * 1000))%result
      end)
  /\ (ts a = None -> b a = None ->
      determine_bitrate a d pc = Ok (p_bitrate_bps pc))
  /\ compute_bitrate_for_target_size 2500000 300 = Ok 64666.
Proof.
  intros Hd. split; [| split; [| split]].
  - intros n Hts Hn.
    rewrite (determine_bitrate_target a d pc n Hts) by lia.
    unfold compute_bitrate_for_target_size.
    now rewrite (positive_not_le_zero d Hd).
  - intros Hts s Hb Hs. apply determine_bitrate_explicit; trivial. now rewrite Hts.
  - intros Hts Hb. apply determine_bitrate_preset; [now rewrite Hts | now rewrite Hb].
  - vm_compute. reflexivity.
Qed.

Lemma bitrate_source_precedence_witness :
  (0 <? 300)%float = true
  /\ determine_bitrate args_ts_and_b 300 (PRESETS voice) = Ok 64666.
Proof.
  split; [reflexivity |].
  rewrite (proj1 (bitrate_source_precedence args_ts_and_b 300 (PRESETS voice) eq_refl)
             2500000 eq_refl);
    [vm_compute; reflexivity | lia].
Defined.

(** C2 as stated fails: a target size of zero bytes is given, and the
    explicit bitrate wins over it.  The target size would give the lower
    bound of the clamp, 6000; the job runs at 64000. *)
Lemma zero_target_size_loses :
  exists a' files oid,
    main_prologue demo_os args_ts0_b64k [] = inr (a', files, oid)
    /\ ts a' = Some 0
    /\ b a' = Some "64k"
    /\ (0 <? 300)%float = true
    /\ compute_bitrate_for_target_size 0 300 = Ok 6000
    /\ determine_bitrate a' 300 (PRESETS voice) = Ok 64000.
Proof.
  eexists. eexists. eexists. split; [vm_compute; reflexivity |].
  repeat split; vm_compute; reflexivity.
Qed.

Lemma str_int_neg (p : positive) :
  str_int (Z.neg p) = String "-" (NilEmpty.string_of_uint (Pos.to_uint p)).
Proof.
  unfold str_int. simpl.
  pose proof (DecimalPos.Unsigned.to_uint_nonnil p) as H.
  destruct (Pos.to_uint p); simpl; congruence.
Qed.

(** The numeral of a negative number starts with a sign, which is neither
    white space nor a digit. *)
Lemma match_bitrate_negative (p : positive) (tail : string) :
  match_bitrate (str_int (Z.neg p) ++ tail) = None.
Proof.
  rewrite str_int_neg. unfold match_bitrate.
  cbn [String.append decode]. change (N_of_ascii "-" <? 128)%N with true.
  cbv iota. change (N_of_ascii "-") with 45%N. reflexivity.
Qed.

(** C10, as amended.  The digits of an explicit bitrate are multiplied by
    1000 with or without the letter k: for a natural number [z] whose
    decimal numeral has at most 4300 digits, both [z] and [zk] give
    [z * 1000] bits per second.  The numeral of a negative number does not
    match the pattern, and a numeral of more than 4300 digits is refused by
    [int]: in both cases the job fails with a [ValueError]. *)
Theorem explicit_bitrate_scaled_by_1000 (z : Z) (a : Args) (d : float)
    (pc : preset_config) (text : string) :
  ts a = None ->
  text = str_int z \/ text = (str_int z ++ "k")%string ->
  b a = Some text ->
  determine_bitrate a d pc =
  if z <? 0 then Raise (ValueError ("Invalid bitrate: " ++ text))
  else if (int_max_str_digits <? String.length (str_int z))%nat then
    Raise (ValueError (int_limit_message (String.length (str_int z))))
  else Ok (z * 1000).
Proof.
  intros Hts Htext Hb.
  assert (Htail : exists tail, (tail = "" \/ tail = "k" \/ tail = "K")
                               /\ text = (str_int z ++ tail)%string).
  { destruct Htext as [-> | ->];
      [exists ""; rewrite string_app_nil_r; auto | exists "k"; auto]. }
  destruct Htail as (tail & Htail & ->).
  assert (Hne : (str_int z ++ tail)%string <> "").
  { destruct z as [| p | p].
    - discriminate.
    - change (Z.pos p) with (Z.of_N (N.pos p)). rewrite str_int_of_N.
      pose proof (to_uint_nonnil (N.pos p)) as H.
      destruct (N.to_uint (N.pos p)); try congruence; discriminate.
    - rewrite str_int_neg. discriminate. }
  assert (Hts' : truthy_int (ts a) = false) by now rewrite Hts.
  rewrite (determine_bitrate_explicit a d pc _ Hts' Hb Hne).
  destruct (Z.ltb_spec z 0) as [Hz | Hz].
  - destruct z as [| p | p]; try lia. now rewrite match_bitrate_negative.
  - assert (Hn : z = Z.of_N (Z.to_N z)) by (symmetry; now apply Z2N.id).
    revert Hn. generalize (Z.to_N z) as n. intros n ->.
    rewrite match_bitrate_numeral by assumption.
    assert (Hlen : List.length (digit_codes (N.to_uint n))
                   = String.length (str_int (Z.of_N n))).
    { now rewrite digit_codes_length, <- str_int_of_N. }
    unfold int_of_digits. rewrite Hlen.
    destruct (int_max_str_digits <? String.length (str_int (Z.of_N n)))%nat;
      [reflexivity |].
    simpl. now rewrite int_digits_numeral.
Qed.

Lemma explicit_bitrate_scaled_by_1000_witness :
  determine_bitrate
    (set_parsed (with_bitrate (default_args ["track.wav"]) (Some "32")) None)
    300 (PRESETS voice) = Ok 32000
  /\ determine_bitrate
       (set_parsed (with_bitrate (default_args ["track.wav"]) (Some "32k")) None)
       300 (PRESETS voice) = Ok 32000
  /\ determine_bitrate
       (set_parsed (with_bitrate (default_args ["track.wav"]) (Some "-5k")) None)
       300 (PRESETS voice) = Raise (ValueError "Invalid bitrate: -5k").
Proof.
  split; [| split].
  - apply (explicit_bitrate_scaled_by_1000 32 _ _ _ "32");
      [reflexivity | left; reflexivity | reflexivity].
  - apply (explicit_bitrate_scaled_by_1000 32 _ _ _ "32k");
      [reflexivity | right; reflexivity | reflexivity].
  - apply (explicit_bitrate_scaled_by_1000 (-5) _ _ _ "-5k");
      [reflexivity | right; reflexivity | reflexivity].
Defined.

(** C10 as stated fails for integers that are not small natural numbers:
    [-5] does not resolve to -5000 bits per second but makes the job fail,
    and so does the numeral of [10 ^ 4300], which has 4301 digits. *)
Lemma negative_or_long_bitrate_fails :
  determine_bitrate
    (set_parsed (with_bitrate (default_args ["track.wav"]) (Some (str_int (-5)))) None)
    300 (PRESETS voice) = Raise (ValueError "Invalid bitrate: -5")
  /\ String.length long_numeral = 4301%nat
  /\ match_bitrate long_numeral = Some (decode long_numeral)
  /\ determine_bitrate
       (set_parsed (with_bitrate (default_args ["track.wav"]) (Some long_numeral)) None)
       300 (PRESETS voice)
     = Raise (ValueError
                ("Exceeds the limit (4300 digits) for integer string conversion: "
                 ++ "value has 4301 digits; "
                 ++ "use sys.set_int_max_str_digits() to increase the limit")).
Proof. split; [| split; [| split]]; vm_compute; reflexivity. Qed.

(** ** Probing the duration *)

Section Probe.

Context {World : Type} (os : OS World).

Lemma first_audio_duration_find (streams : list stream_info) :
  first_audio_duration os streams =
  match find reports_audio_duration streams with
  | Some s =>
      match s_duration s with
      | Some t => (x <- float_of_str os t ;; Ok (Some x))%result
      | None => Ok None
      end
  | None => Ok None
  end.
Proof.
  induction streams as [| s rest IH]; simpl; [reflexivity |].
  unfold reports_audio_duration.
  destruct (s_codec_type s) as [t |], (s_duration s) as [d |] eqn:Hd; trivial.
  destruct (String.eqb t "audio"); trivial. now rewrite Hd.
Qed.

(** [ffprobe_duration], with the source of the duration named. *)
Lemma ffprobe_duration_unfold (path : Path) (s : State World) :
  snd (ffprobe_duration os path s) =
  match snd (run_cmd os (world s) (ffprobe_cmd path)) with
  | Raise e => Raise e
  | Ok p =>
      if negb (returncode p =? 0) then
        Raise (RuntimeError
                 ("ffprobe failed for " ++ str_path path ++ ": " ++ strip (stderr p)))
      else
        match json_loads os (probe_text p) with
        | Raise e => Raise e
        | Ok info =>
            match duration_source info with
            | None =>
                Raise (RuntimeError
                         ("Could not determine duration for " ++ str_path path))
            | Some text =>
                match float_of_str os text with
                | Raise e => Raise e
                | Ok d =>
                    if is_finite d then Ok d
                    else Raise (RuntimeError
                                  ("Could not determine duration for " ++ str_path path))
                end
            end
        end
  end.
Proof.
  unfold ffprobe_duration, bind, call, lift, ret, raise, probe_text.
  destruct (run_cmd os (world s) (ffprobe_cmd path)) as [w [p | e]]; simpl; trivial.
  destruct (returncode p =? 0); simpl; trivial.
  destruct (json_loads os _) as [info | e]; simpl; trivial.
  unfold duration_source. rewrite first_audio_duration_find.
  destruct (i_format info) as [[text |] |]; simpl.
  - destruct (float_of_str os text) as [d |]; simpl; trivial.
    destruct (is_finite d); trivial.
  - destruct (find _ _) as [st |]; simpl; trivial.
    destruct (s_duration st) as [text |]; simpl; trivial.
    destruct (float_of_str os text) as [d |]; simpl; trivial.
    destruct (is_finite d); trivial.
  - destruct (find _ _) as [st |]; simpl; trivial.
    destruct (s_duration st) as [text |]; simpl; trivial.
    destruct (float_of_str os text) as [d |]; simpl; trivial.
    destruct (is_finite d); trivial.
Qed.

(** C3, as amended.  Probing fails exactly when the tool cannot be run or
    exits non-zero, or no duration can be read from its output, or the
    duration read is not finite.  Otherwise it returns the duration of the
    container when there is one, else the first duration reported by an
    audio stream, whatever its sign: zero and negative durations are
    returned. *)
Theorem ffprobe_duration_outcome (path : Path) (s : State World) :
  (forall d, snd (ffprobe_duration os path s) = Ok d <-> probe_succeeds os path (world s) d)
  /\ (is_ok (snd (ffprobe_duration os path s)) = false <-> probe_fails os path (world s)).
Proof.
  rewrite ffprobe_duration_unfold. unfold probe_succeeds, probe_fails.
  destruct (snd (run_cmd os (world s) (ffprobe_cmd path))) as [p | e].
  2:{ split; [intros d; split; [discriminate | intros (p & ? & ? & [=] & _)]
             | simpl; tauto]. }
  destruct (Z.eqb_spec (returncode p) 0) as [Hc | Hc]; simpl.
  2:{ split; [intros d; split; [discriminate |] | simpl; tauto].
      intros (p' & ? & ? & [= <-] & ? & _). contradiction. }
  destruct (json_loads os (probe_text p)) as [info | e] eqn:Hj.
  2:{ split; [intros d; split; [discriminate |] | simpl; tauto].
      intros (p' & ? & ? & [= <-] & _ & Hj' & _). congruence. }
  destruct (duration_source info) as [text |] eqn:Hsrc.
  2:{ split; [intros d; split; [discriminate |] | simpl; tauto].
      intros (p' & ? & ? & [= <-] & _ & Hj' & Hs' & _). congruence. }
  destruct (float_of_str os text) as [x | e] eqn:Hf.
  2:{ split; [intros d; split; [discriminate |] | simpl; tauto].
      intros (p' & ? & ? & [= <-] & _ & Hj' & Hs' & Hf' & _). congruence. }
  destruct (is_finite x) eqn:Hfin.
  - split.
    + intros d. split.
      * intros [= <-]. exists p, info, text. repeat split; assumption || reflexivity.
      * intros (p' & ? & ? & [= <-] & _ & Hj' & Hs' & Hf' & _). congruence.
    + simpl. split; [discriminate | intros [? | ?]; congruence].
  - split.
    + intros d. split; [discriminate |].
      intros (p' & ? & ? & [= <-] & _ & Hj' & Hs' & Hf' & Hfin'). congruence.
    + simpl. tauto.
Qed.

End Probe.

(** C3 as stated fails: the probe of [still.wav] reads the duration 0.0,
    which is not positive, and returns it. *)
Lemma nonpositive_duration_returned :
  snd (ffprobe_duration demo_os (PosixPath "still.wav")
         (mkState [] (default_args ["still.wav"]))) = Ok 0%float
  /\ (0 <=? 0)%float = true.
Proof. split; vm_compute; reflexivity. Qed.

(** ** The filter chain *)

Section Filters.

Context {World : Type} (os : OS World).

Lemma build_filterchain_concat (a : Args) (pc : preset_config) :
  build_filterchain os a pc = String.concat "," (build_filters os a pc).
Proof. unfold build_filterchain. now destruct (build_filters os a pc). Qed.

(** C6.  The stages of the filter chain come in the order silence trim,
    high-pass, low-pass, loudness normalization, each present or absent by
    its own rule; the options object has fields, not an order, so no order
    of the options can change this.  When no stage is enabled the chain is
    the empty string, and the encoder command is built without [-af]. *)
Theorem filter_stage_order (a : Args) (pc : preset_config) :
  map stage_name (build_filters os a pc) =
    (if st a then ["silenceremove"] else [])
    ++ (if truthy_int (or_else (hp a) (p_highpass pc)) then ["highpass"] else [])
    ++ (if truthy_int (or_else (lp a) (p_lowpass pc)) then ["lowpass"] else [])
    ++ (match or_else (lufs a) (p_lufs pc) with Some _ => ["loudnorm"] | None => [] end)
  /\ build_filterchain os a pc = String.concat "," (build_filters os a pc)
  /\ (st a = false ->
      truthy_int (or_else (hp a) (p_highpass pc)) = false ->
      truthy_int (or_else (lp a) (p_lowpass pc)) = false ->
      or_else (lufs a) (p_lufs pc) = None ->
      build_filterchain os a pc = ""
      /\ forall inp out codec br sr ch cmd,
           build_ffmpeg_cmd inp out codec br sr ch (build_filterchain os a pc) = Ok cmd ->
           firstn 8 cmd =
           ["ffmpeg"; "-y"; "-hide_banner"; "-loglevel"; "error"; "-i";
            str_path inp; "-ac"]).
Proof.
  split; [| split].
  - unfold build_filters, silence_stage, highpass_stage, lowpass_stage, loudnorm_stage.
    rewrite !map_app.
    destruct (st a), (truthy_int (or_else (hp a) (p_highpass pc))),
      (truthy_int (or_else (lp a) (p_lowpass pc))),
      (or_else (lufs a) (p_lufs pc)); reflexivity.
  - apply build_filterchain_concat.
  - intros Hst Hhp Hlp Hlufs.
    assert (Hnil : build_filterchain os a pc = "").
    { rewrite build_filterchain_concat.
      unfold build_filters, silence_stage, highpass_stage, lowpass_stage,
        loudnorm_stage.
      now rewrite Hst, Hhp, Hlp, Hlufs. }
    split; [exact Hnil |].
    intros inp out codec br sr ch cmd. rewrite Hnil.
    unfold build_ffmpeg_cmd. simpl.
    destruct (String.eqb codec "opus"); [| destruct (String.eqb codec "aac");
      [| destruct (String.eqb codec "mp3")]]; simpl; intros [= <-]; reflexivity.
Qed.

(** C5.  A job under the voice preset that starts without a low-pass
    override: at a resolved bitrate of 24000 bits per second or less the
    low-pass stage of its filter chain is [lowpass=f=8000]; above, it is the
    [lowpass=f=12000] of the preset. *)
Theorem voice_lowpass_by_bitrate (inp out : Path) (d : float) (size : Z)
    (a a' : Args) (job : Job) :
  preset a = voice -> lp a = None ->
  prepare_job os inp out (PRESETS voice) d size a = (a', Ok job) ->
  j_filterchain job =
    String.concat ","
      (silence_stage os a' ++ highpass_stage a' (PRESETS voice)
       ++ lowpass_stage a' (PRESETS voice) ++ loudnorm_stage os a' (PRESETS voice))
  /\ (j_bitrate_bps job <= 24000 ->
      lowpass_stage a' (PRESETS voice) = ["lowpass=f=8000"])
  /\ (24000 < j_bitrate_bps job ->
      lowpass_stage a' (PRESETS voice) = ["lowpass=f=12000"]).
Proof.
  intros Hp Hlp H.
  apply prepare_job_inv in H as (_ & -> & Hchain & _).
  split; [rewrite Hchain; apply build_filterchain_concat |].
  unfold adjust_lowpass. rewrite Hp, Hlp.
  split; intros Hbr.
  - apply Z.leb_le in Hbr. rewrite Hbr. reflexivity.
  - apply Z.leb_gt in Hbr. rewrite Hbr. cbn [preset_name_eqb andb].
    unfold lowpass_stage. now rewrite Hlp.
Qed.

End Filters.

Lemma filter_stage_order_witness :
  build_filterchain demo_os (default_args ["track.wav"]) bare_preset = ""
  /\ build_filterchain demo_os (default_args ["track.wav"]) (PRESETS voice)
     = "highpass=f=80,lowpass=f=12000,loudnorm=I=-16.0:LRA=11:TP=-1.5".
Proof.
  split.
  - apply (filter_stage_order demo_os (default_args ["track.wav"]) bare_preset);
      reflexivity.
  - reflexivity.
Defined.

Lemma voice_lowpass_by_bitrate_witness :
  match prepare_job demo_os (PosixPath "track.wav") (PosixPath "track.opus")
          (PRESETS voice) 300 4000000 args_b20,
        prepare_job demo_os (PosixPath "track.wav") (PosixPath "track.opus")
          (PRESETS voice) 300 4000000 args_b40 with
  | (a20, Ok job20), (a40, Ok job40) =>
      j_bitrate_bps job20 = 20000
      /\ lowpass_stage a20 (PRESETS voice) = ["lowpass=f=8000"]
      /\ j_bitrate_bps job40 = 40000
      /\ lowpass_stage a40 (PRESETS voice) = ["lowpass=f=12000"]
  | _, _ => False
  end.
Proof.
  destruct (prepare_job demo_os (PosixPath "track.wav") (PosixPath "track.opus")
              (PRESETS voice) 300 4000000 args_b20) as [a20 [job20 | e]] eqn:E20;
    [| vm_compute in E20; discriminate].
  destruct (prepare_job demo_os (PosixPath "track.wav") (PosixPath "track.opus")
              (PRESETS voice) 300 4000000 args_b40) as [a40 [job40 | e]] eqn:E40;
    [| vm_compute in E40; discriminate].
  assert (B20 : j_bitrate_bps job20 = 20000)
    by (vm_compute in E20; now injection E20 as _ <-).
  assert (B40 : j_bitrate_bps job40 = 40000)
    by (vm_compute in E40; now injection E40 as _ <-).
  repeat split; trivial.
  - apply (voice_lowpass_by_bitrate demo_os _ _ _ _ args_b20 a20 job20 eq_refl eq_refl E20).
    rewrite B20. discriminate.
  - apply (voice_lowpass_by_bitrate demo_os _ _ _ _ args_b40 a40 job40 eq_refl eq_refl E40).
    rewrite B40. reflexivity.
Defined.

(** ** Output paths *)

Lemma Path_eqb_eq (p q : Path) : Path_eqb p q = true <-> p = q.
Proof.
  unfold Path_eqb. rewrite andb_true_iff, String.eqb_eq.
  destruct p as [a l], q as [a' l']; simpl.
  destruct (list_eq_dec string_dec l l') as [-> | Hne].
  - split; [intros [-> _]; reflexivity | intros [= ->]; auto].
  - split; [intros [_ [=]] | intros [= _ ?]; contradiction].
Qed.

Lemma no_slash_app (s t : string) :
  no_slash (s ++ t) = no_slash s && no_slash t.
Proof.
  induction s as [| c s IH]; simpl; [reflexivity |].
  now rewrite IH, andb_assoc.
Qed.

Lemma split_slash_whole (s : string) : no_slash s = true -> split_slash s = [s].
Proof.
  induction s as [| c s IH]; simpl; [reflexivity |].
  intros H. apply andb_true_iff in H as [Hc Hs].
  apply negb_true_iff in Hc. now rewrite Hc, IH.
Qed.

Lemma split_slash_parts (s c : string) : In c (split_slash s) -> no_slash c = true.
Proof.
  revert c. induction s as [| a s IH]; simpl; intros c.
  - now intros [<- | []].
  - destruct (Ascii.eqb a "/") eqn:Ha.
    + intros [<- | Hc]; [reflexivity | now apply IH].
    + destruct (split_slash s) as [| h t].
      * intros [<- | []]. simpl. now rewrite Ha.
      * intros [<- | Hc].
        -- simpl. rewrite Ha. simpl. apply IH. now left.
        -- apply IH. now right.
Qed.

Lemma split_at_app (i : nat) (s : string) :
  (fst (split_at i s) ++ snd (split_at i s))%string = s.
Proof.
  revert s. induction i as [| i IH]; intros s; simpl; [reflexivity |].
  destruct s as [| c r]; simpl; [reflexivity |].
  specialize (IH r). destruct (split_at i r) as [x y]. simpl in *. now rewrite IH.
Qed.

Lemma stem_suffix (p : Path) : (stem p ++ path_suffix p)%string = name p.
Proof. apply split_at_app. Qed.

Lemma string_length_app (s t : string) :
  String.length (s ++ t) = (String.length s + String.length t)%nat.
Proof. induction s as [| c s IH]; simpl; [reflexivity | now rewrite IH]. Qed.

Lemma last_in {A : Type} (l : list A) (d : A) : l <> [] -> In (last l d) l.
Proof.
  induction l as [| x [| y r] IH]; intros H; simpl; [congruence | now left |].
  right. apply IH. discriminate.
Qed.

(** The name with [-compressed] put before the suffix is longer than the
    name, and has a slash only if the name has one. *)
Lemma compressed_name_length (p : Path) :
  String.length (stem p ++ "-compressed" ++ path_suffix p)
  = (String.length (name p) + 11)%nat.
Proof.
  rewrite <- (stem_suffix p), !string_length_app. simpl. lia.
Qed.

Lemma compressed_name_no_slash (p : Path) :
  no_slash (stem p ++ "-compressed" ++ path_suffix p) = no_slash (name p).
Proof.
  rewrite <- (stem_suffix p), !no_slash_app. simpl. reflexivity.
Qed.

Lemma posix_path_one_name (s : string) :
  no_slash s = true -> (2 <= String.length s)%nat ->
  PosixPath s = mkPath "" [s].
Proof.
  intros Hs Hlen. unfold PosixPath. rewrite (split_slash_whole s Hs).
  destruct s as [| c [| c' r]]; simpl in Hlen; try lia.
  simpl in Hs. apply andb_true_iff in Hs as [Hc _].
  apply negb_true_iff in Hc.
  unfold root_of, leading_slashes. simpl. rewrite Hc. simpl.
  f_equal. unfold is_name. simpl.
  destruct (Ascii.eqb c "."); reflexivity.
Qed.

Lemma posix_path_names_no_slash (s c : string) :
  In c (names (PosixPath s)) -> no_slash c = true.
Proof.
  unfold PosixPath. simpl. intros H. apply filter_In in H as [H _].
  now apply (split_slash_parts s).
Qed.

(** The path that [avoid_input] falls back on is never the input. *)
Lemma compressed_path_differs (f : Path) :
  joinpath (parent f) (stem f ++ "-compressed" ++ path_suffix f) <> f.
Proof.
  set (new := (stem f ++ "-compressed" ++ path_suffix f)%string).
  pose proof (compressed_name_length f) as Hlen. fold new in Hlen.
  pose proof (compressed_name_no_slash f) as Hns. fold new in Hns.
  destruct (no_slash (name f)) eqn:Hname.
  - unfold joinpath. rewrite (posix_path_one_name new Hns) by lia. simpl.
    intros Heq. apply (f_equal names) in Heq. simpl in Heq.
    destruct (names f) as [| x r] eqn:Hn; [destruct (removelast []); discriminate |].
    assert (Hne : names f <> []) by (rewrite Hn; discriminate).
    rewrite <- Hn in Heq.
    rewrite (app_removelast_last EmptyString Hne) in Heq at 2.
    apply app_inj_tail in Heq as [_ Heq].
    fold (name f) in Heq. rewrite Heq in Hlen. lia.
  - assert (Hne : names f <> []).
    { intros E. unfold name in Hname. rewrite E in Hname. discriminate. }
    assert (Hin : In (name f) (names (PosixPath new)) -> False).
    { intros H. apply posix_path_names_no_slash in H. congruence. }
    unfold joinpath.
    destruct (String.eqb (anchor (PosixPath new)) ""); intros Heq;
      apply (f_equal names) in Heq; simpl in Heq.
    + rewrite (app_removelast_last EmptyString Hne) in Heq at 2.
      apply app_inv_head in Heq. apply Hin. simpl. rewrite Heq. now left.
    + apply Hin. simpl. rewrite Heq. now apply last_in.
Qed.

(** C7.  In each of the three output modes the output path chosen for a
    file differs from the path of the file.  When the path derived from the
    options collides with the input, the output is the name of the input
    with [-compressed] put between its stem and its suffix, next to the
    input.  [track.wav] under the voice preset, without [-o] and without a
    suffix, goes to [track.opus]. *)
Theorem output_path_never_input (a : Args) (pc : preset_config)
    (single_file output_is_dir : bool) (f : Path) :
  choose_output_path a pc single_file output_is_dir f <> f
  /\ choose_output_path a pc single_file output_is_dir f =
     (if Path_eqb (derive_output_path a pc single_file output_is_dir f) f
      then joinpath (parent f) (stem f ++ "-compressed" ++ path_suffix f)
      else derive_output_path a pc single_file output_is_dir f)
  /\ choose_output_path (default_args ["track.wav"]) (PRESETS voice) true false
       (PosixPath "track.wav") = PosixPath "track.opus"
  /\ choose_output_path (with_output (default_args ["track.opus"]) (Some "track.opus"))
       (PRESETS voice) true false (PosixPath "track.opus")
     = PosixPath "track-compressed.opus".
Proof.
  split; [| split; [reflexivity | split; reflexivity]].
  unfold choose_output_path, avoid_input.
  destruct (Path_eqb _ f) eqn:E.
  - apply compressed_path_differs.
  - intros H. apply Path_eqb_eq in H. congruence.
Qed.

(** ** Jobs and the shared options object *)

Section Batch.

Context {World : Type} (os : OS World).

Lemma keeps_ret {A : Type} (a : A) : keeps_args (@ret World A a).
Proof. now intros s. Qed.

Lemma keeps_raise {A : Type} (e : exn) : keeps_args (@raise World A e).
Proof. now intros s. Qed.

Lemma keeps_lift {A : Type} (r : result A) : keeps_args (@lift World A r).
Proof. now intros s. Qed.

Lemma keeps_ask {A : Type} (f : World -> A) : keeps_args (ask f).
Proof. now intros s. Qed.

Lemma keeps_call {A : Type} (f : World -> World * result A) : keeps_args (call f).
Proof. intros s. unfold call. now destruct (f (world s)). Qed.

Lemma keeps_bind {A B : Type} (m : M World A) (k : A -> M World B) :
  keeps_args m -> (forall a, keeps_args (k a)) -> keeps_args (bind m k).
Proof.
  intros Hm Hk s. unfold bind. specialize (Hm s).
  destruct (m s) as [s1 [a | e]]; simpl in *; [| assumption].
  now rewrite Hk.
Qed.

Ltac keeps :=
  repeat first
    [ apply keeps_ret | apply keeps_raise | apply keeps_lift | apply keeps_ask
    | apply keeps_call | apply keeps_bind; [| intros ?]
    | match goal with
      | |- keeps_args (if ?c then _ else _) => destruct c
      | |- keeps_args (match ?x with _ => _ end) => destruct x
      end ].

Lemma ffprobe_duration_keeps_args (path : Path) :
  keeps_args (ffprobe_duration os path).
Proof. unfold ffprobe_duration. keeps. Qed.

Lemma run_encoder_keeps_args (out : Path) (size : Z) (job : Job) :
  keeps_args (run_encoder os out size job).
Proof. unfold run_encoder. keeps. Qed.

Lemma make_output_dir_keeps_args (single_file output_is_dir : bool) :
  keeps_args (make_output_dir os single_file output_is_dir).
Proof.
  intros s. unfold make_output_dir.
  destruct (output_mode_of _ _ _); trivial. apply keeps_call.
Qed.

Lemma compress_audio_except_args (out : Path) (s : State World) :
  args (compress_audio_except os out s) = args s.
Proof. unfold compress_audio_except. now destruct (os_path_exists _ _ _). Qed.

Lemma say_keeps_args (n : notice) : keeps_args (say os n).
Proof. apply keeps_call. Qed.

Lemma prepare_job_args (f out : Path) (pc : preset_config) (d : float) (size : Z)
    (a : Args) :
  fst (prepare_job os f out pc d size a) =
  match determine_bitrate a d pc with
  | Ok br => adjust_lowpass a br
  | Raise _ => a
  end.
Proof.
  unfold prepare_job. rewrite <- (plan_job_args os pc d size a).
  now destruct (plan_job os pc d size a).
Qed.

(** The [try] of [compress_audio], step by step. *)
Lemma compress_audio_try_eq (f out : Path) (pc : preset_config) (s : State World) :
  compress_audio_try os f out pc s =
  match ffprobe_duration os f s with
  | (s1, Raise e) => (s1, Raise e)
  | (s1, Ok d) =>
      match os_path_getsize os (world s1) f with
      | Raise e => (s1, Raise e)
      | Ok size =>
          match plan_job os pc d size (args s1) with
          | (a', Raise e) => (mkState (world s1) a', Raise e)
          | (a', Ok p) =>
              match say os (Estimate f size (pl_est_size p) (pl_bitrate_bps p)
                              (pl_codec p)) (mkState (world s1) a') with
              | (s2, Raise e) => (s2, Raise e)
              | (s2, Ok _) =>
                  match job_of_plan f out p with
                  | Raise e => (s2, Raise e)
                  | Ok job => run_encoder os out size job s2
                  end
              end
          end
      end
  end.
Proof.
  unfold compress_audio_try, bind, ask, lift, update_args.
  destruct (ffprobe_duration os f s) as [s1 [d | e]]; trivial.
  destruct (os_path_getsize os (world s1) f) as [size | e]; trivial.
  destruct (plan_job os pc d size (args s1)) as [a' [p | e]]; trivial.
Qed.

(** The options object after the [try]: written by [plan_job], if the job
    got that far, and by nothing else. *)
Lemma compress_audio_try_args (f out : Path) (pc : preset_config) (s : State World) :
  args (fst (compress_audio_try os f out pc s)) =
  match ffprobe_duration os f s with
  | (s1, Ok d) =>
      match os_path_getsize os (world s1) f with
      | Ok size => fst (prepare_job os f out pc d size (args s))
      | Raise _ => args s
      end
  | (_, Raise _) => args s
  end.
Proof.
  rewrite compress_audio_try_eq.
  pose proof (ffprobe_duration_keeps_args f s) as Hp.
  destruct (ffprobe_duration os f s) as [s1 [d | e]]; simpl in Hp; [| exact Hp].
  destruct (os_path_getsize os (world s1) f) as [size | e]; [| exact Hp].
  rewrite <- Hp. unfold prepare_job.
  destruct (plan_job os pc d size (args s1)) as [a' [p | e]]; [| reflexivity].
  pose proof (say_keeps_args
                (Estimate f size (pl_est_size p) (pl_bitrate_bps p) (pl_codec p))
                (mkState (world s1) a')) as Hs.
  destruct (say os _ _) as [s2 [[] | e]]; simpl in Hs; [| exact Hs].
  destruct (job_of_plan f out p) as [job | e]; [| exact Hs].
  now rewrite run_encoder_keeps_args.
Qed.

(** What [compress_audio] returns is how the [try] ended. *)
Lemma compress_audio_result (f out : Path) (pc : preset_config) (s : State World)
    (r : bool) :
  snd (compress_audio os f out pc s) = Ok r ->
  r = succeeded (job_outcome os f out pc s).
Proof.
  unfold compress_audio, job_outcome, bind, say, call, ret.
  destruct (os_path_exists os (world s) f); simpl.
  - destruct (compress_audio_try os f out pc s) as [s1 [[|] | e]]; simpl;
      try (intros [= <-]; reflexivity).
    destruct (os_print os (world s1) _) as [w [[] | e']]; simpl;
      [intros [= <-]; reflexivity | discriminate].
  - destruct (os_print os (world s) _) as [w [[] | e']]; simpl;
      [intros [= <-]; reflexivity | discriminate].
Qed.

(** What leaves [compress_audio] as an exception was raised by a [print]
    outside the [try]. *)
Lemma compress_audio_raise (f out : Path) (pc : preset_config) (s : State World)
    (e : exn) :
  snd (compress_audio os f out pc s) = Raise e ->
  exists w n, snd (os_print os w n) = Raise e.
Proof.
  unfold compress_audio, bind, say, call, ret.
  destruct (os_path_exists os (world s) f); simpl.
  - destruct (compress_audio_try os f out pc s) as [s1 [r | e1]]; simpl;
      [discriminate |].
    destruct (os_print os (world s1) (JobError f e1)) as [w [[] | e']] eqn:Hp; simpl;
      [discriminate |].
    intros [= <-]. exists (world s1), (JobError f e1). now rewrite Hp.
  - destruct (os_print os (world s) (InputNotFound f)) as [w [[] | e']] eqn:Hp; simpl;
      [discriminate |].
    intros [= <-]. exists (world s), (InputNotFound f). now rewrite Hp.
Qed.

(** Where everything can be printed, [compress_audio] returns. *)
Lemma compress_audio_quiet (f out : Path) (pc : preset_config) (s : State World) :
  print_never_fails os ->
  snd (compress_audio os f out pc s) = Ok (succeeded (job_outcome os f out pc s)).
Proof.
  intros Hq.
  destruct (snd (compress_audio os f out pc s)) as [r | e] eqn:H.
  - now rewrite (compress_audio_result f out pc s r H).
  - apply compress_audio_raise in H as (w & n & H). rewrite Hq in H. discriminate.
Qed.

(** The options object after a job: written by [prepare_job], if the job got
    that far, and by nothing else. *)
Lemma compress_audio_args (f out : Path) (pc : preset_config) (s : State World) :
  args (fst (compress_audio os f out pc s)) =
  match job_inputs os f s with
  | Some (d, size) => fst (prepare_job os f out pc d size (args s))
  | None => args s
  end.
Proof.
  unfold compress_audio, job_inputs.
  destruct (os_path_exists os (world s) f); simpl.
  2:{ unfold bind. pose proof (say_keeps_args (InputNotFound f) s) as Hs.
      now destruct (say os (InputNotFound f) s) as [s1 [[] | e]]. }
  pose proof (compress_audio_try_args f out pc s) as Ht.
  assert (Ha : args (fst match compress_audio_try os f out pc s with
                         | (s1, Ok r) => (s1, Ok r)
                         | (s1, Raise e) =>
                             match say os (JobError f e) s1 with
                             | (s2, Ok _) => (compress_audio_except os out s2, Ok false)
                             | (s2, Raise e') => (s2, Raise e')
                             end
                         end)
               = args (fst (compress_audio_try os f out pc s))).
  { destruct (compress_audio_try os f out pc s) as [s1 [r | e]]; [reflexivity |].
    simpl. pose proof (say_keeps_args (JobError f e) s1) as Hs.
    destruct (say os (JobError f e) s1) as [s2 [[] | e']]; simpl in *; [| exact Hs].
    now rewrite compress_audio_except_args. }
  rewrite Ha, Ht.
  destruct (ffprobe_duration os f s) as [s1 [d | e]]; [| reflexivity].
  now destruct (os_path_getsize os (world s1) f).
Qed.

End Batch.

(** ** The loop of [main] *)

Section Loop.

Context {World : Type} (os : OS World).









Lemma main_prologue_inr (a : Args) (w : World) (a' : Args) (files : list Path)
    (oid : bool) :
  main_prologue os a w = inr (a', files, oid) ->
  exists parsed,
    parse_target_size os a = Ok parsed
    /\ a' = set_parsed a parsed
    /\ files = collect_inputs os w (map PosixPath (paths a))
    /\ files <> [].
Proof.
  unfold main_prologue.
  destruct (list_presets a); [discriminate |].
  destruct (negb (require_ffmpeg os w)); [discriminate |].
  destruct (collect_inputs os w (map PosixPath (paths a))) as [| f rest] eqn:Hc;
    [discriminate |].
  destruct (parse_target_size os a) as [parsed | e]; [| discriminate].
  intros [= <- <- <-]. exists parsed. repeat split. discriminate.
Qed.




End Loop.





(** ** The filter chain in the command *)

Lemma concat_covers (sep y : string) (l : list string) :
  In y l -> (String.length y <= String.length (String.concat sep l))%nat.
Proof.
  induction l as [| x [| z r] IH]; simpl; [intros [] | intros [<- | []]; lia |].
  intros [<- | H].
  - rewrite string_length_app. lia.
  - rewrite !string_length_app. specialize (IH H). simpl in IH. lia.
Qed.


(** ** The low-pass override across a run *)

Section Override.

Context {World : Type} (os : OS World).







Lemma process_file_args (pc : preset_config) (single_file output_is_dir : bool)
    (f : Path) (s : State World) :
  args (fst (process_file os pc single_file output_is_dir f s)) = args s
  \/ exists out d size,
       args (fst (process_file os pc single_file output_is_dir f s))
       = fst (prepare_job os f out pc d size (args s)).
Proof.
  unfold process_file.
  pose proof (make_output_dir_keeps_args os single_file output_is_dir s) as Hk.
  destruct (make_output_dir os single_file output_is_dir s) as [s1 [[] | e]];
    simpl in Hk; [| now left].
  pose proof (compress_audio_args os f
                (choose_output_path (args s1) pc single_file output_is_dir f) pc s1) as Ha.
  destruct (compress_audio os f _ pc s1) as [s2 r]. simpl in *.
  assert (Hs : args (fst match r with
                         | Ok r0 =>
                             let (s3, r1) := say os BlankLine s2 in
                             match r1 with
                             | Ok _ => (s3, Ok r0)
                             | Raise e => (s3, Raise e)
                             end
                         | Raise e => (s2, Raise e)
                         end) = args s2).
  { destruct r as [r0 | e]; [| reflexivity].
    pose proof (say_keeps_args os BlankLine s2) as Hb.
    now destruct (say os BlankLine s2) as [s3 [[] | e]]. }
  rewrite Hs.
  destruct (job_inputs os f s1) as [[d size] |].
  - right. exists (choose_output_path (args s1) pc single_file output_is_dir f), d, size.
    now rewrite Ha, Hk.
  - left. congruence.
Qed.








End Override.



(** ** Malformed options *)

Section Options.

Context {World : Type} (os : OS World).





End Options.




(** * More of the script *)

(** ** The size pattern *)










Section Sizes.

Context {World : Type} (os : OS World).


End Sizes.


(** ** Explicit bitrates *)

(** X2.  Without a target size, a non-empty bitrate string gives a bitrate
    exactly when its characters are white space, one decimal digit or more
    (at most 4300 of them), white space, at most one letter k in either
    case, white space, where white space and digits are those of Unicode;
    the bitrate is then the value of the digits times 1000.  With more than
    4300 digits [int] refuses the conversion, and outside the pattern the
    job meets "Invalid bitrate". *)
Theorem explicit_bitrate_accepted (a : Args) (d : float) (pc : preset_config)
    (s : string) :
  ts a = None -> b a = Some s -> s <> "" ->
  (forall v, determine_bitrate a d pc = Ok v
             <-> exists g, bitrate_pattern s g
                           /\ (List.length g <= int_max_str_digits)%nat
                           /\ v = int_digits g * 1000)
  /\ (forall g, bitrate_pattern s g -> (int_max_str_digits < List.length g)%nat ->
      determine_bitrate a d pc
      = Raise (ValueError (int_limit_message (List.length g))))
  /\ ((forall g, ~ bitrate_pattern s g) ->
      determine_bitrate a d pc = Raise (ValueError ("Invalid bitrate: " ++ s))).
Proof.
  intros Hts Hb Hne.
  assert (Hd : determine_bitrate a d pc =
               match match_bitrate s with
               | None => Raise (ValueError ("Invalid bitrate: " ++ s))
               | Some g => (n <- int_of_digits g ;; Ok (n * 1000))%result
               end).
  { apply determine_bitrate_explicit; trivial. now rewrite Hts. }
  rewrite Hd. split; [| split].
  - intros v. split.
    + destruct (match_bitrate s) as [g |] eqn:Hm; [| discriminate].
      destruct (int_of_digits g) as [n |] eqn:Hn; [| discriminate].
      apply int_of_digits_ok in Hn as [-> Hlen].
      intros [= <-]. exists g. split; [now apply match_bitrate_spec | auto].
    + intros (g & Hp & Hlen & ->). apply match_bitrate_spec in Hp. rewrite Hp.
      now rewrite (proj2 (int_of_digits_ok g (int_digits g)) (conj eq_refl Hlen)).
  - intros g Hp Hlen. apply match_bitrate_spec in Hp. rewrite Hp.
    now rewrite int_of_digits_long.
  - intros Hno. destruct (match_bitrate s) as [g |] eqn:Hm; [| reflexivity].
    apply match_bitrate_spec in Hm. now apply Hno in Hm.
Qed.

Lemma explicit_bitrate_accepted_witness :
  determine_bitrate
    (set_parsed (with_bitrate (default_args ["track.wav"]) (Some " 096 K ")) None)
    300 (PRESETS voice) = Ok 96000
  /\ determine_bitrate
       (set_parsed (with_bitrate (default_args ["track.wav"])
                      (Some (encode [1635; 1634; 160; 107]%N))) None)
       300 (PRESETS voice) = Ok 32000
  /\ determine_bitrate
       (set_parsed (with_bitrate (default_args ["track.wav"]) (Some long_numeral)) None)
       300 (PRESETS voice)
     = Raise (ValueError (int_limit_message (List.length (decode long_numeral))))
  /\ determine_bitrate
       (set_parsed (with_bitrate (default_args ["track.wav"]) (Some "64kbps")) None)
       300 (PRESETS voice) = Raise (ValueError "Invalid bitrate: 64kbps").
Proof.
  split; [| split; [| split]].
  - apply (proj1 (explicit_bitrate_accepted
                    (set_parsed (with_bitrate (default_args ["track.wav"])
                                   (Some " 096 K ")) None)
                    300 (PRESETS voice) " 096 K " eq_refl eq_refl
                    ltac:(discriminate)) 96000).
    exists (decode "096").
    split; [apply match_bitrate_spec; reflexivity | split; [vm_compute; lia | reflexivity]].
  - apply (proj1 (explicit_bitrate_accepted
                    (set_parsed (with_bitrate (default_args ["track.wav"])
                                   (Some (encode [1635; 1634; 160; 107]%N))) None)
                    300 (PRESETS voice) (encode [1635; 1634; 160; 107]%N)
                    eq_refl eq_refl ltac:(discriminate)) 32000).
    exists [1635; 1634]%N.
    split; [apply match_bitrate_spec; reflexivity | split; [vm_compute; lia | reflexivity]].
  - assert (Hm : match_bitrate long_numeral = Some (decode long_numeral))
      by (vm_compute; reflexivity).
    assert (Hlen : (int_max_str_digits <? List.length (decode long_numeral))%nat = true)
      by (vm_compute; reflexivity).
    assert (Hne : (String.length long_numeral =? 0)%nat = false)
      by (vm_compute; reflexivity).
    apply (proj1 (proj2 (explicit_bitrate_accepted
                           (set_parsed (with_bitrate (default_args ["track.wav"])
                                          (Some long_numeral)) None)
                           300 (PRESETS voice) long_numeral eq_refl eq_refl
                           (string_length_nonempty long_numeral Hne)))).
    + now apply match_bitrate_spec.
    + now apply Nat.ltb_lt.
  - apply (proj2 (proj2 (explicit_bitrate_accepted
                           (set_parsed (with_bitrate (default_args ["track.wav"])
                                          (Some "64kbps")) None)
                           300 (PRESETS voice) "64kbps" eq_refl eq_refl
                           ltac:(discriminate)))).
    intros g H. apply match_bitrate_spec in H. vm_compute in H. discriminate.
Defined.

(** ** The encoder command *)

(** X3.  [build_ffmpeg_cmd] builds a command exactly for the codecs opus,
    aac and mp3, and raises "Unsupported codec" for any other.  The command
    starts with [ffmpeg] and its fixed flags, reads the input after [-i],
    has [-af] and the filter chain exactly when the chain is not empty, then
    the channels, the sample rate, the encoder with [-b:a] and the bitrate,
    and ends with the output path. *)
Theorem build_ffmpeg_cmd_shape (inp out : Path) (codec : string) (br sr ch : Z)
    (chain : string) :
  ((exists cmd, build_ffmpeg_cmd inp out codec br sr ch chain = Ok cmd)
   <-> codec = "opus" \/ codec = "aac" \/ codec = "mp3")
  /\ (forall cmd,
        build_ffmpeg_cmd inp out codec br sr ch chain = Ok cmd ->
        exists enc tail,
          cmd =
          ["ffmpeg"; "-y"; "-hide_banner"; "-loglevel"; "error"; "-i"; str_path inp]
          ++ (if String.eqb chain "" then [] else ["-af"; chain])
          ++ ["-ac"; str_int ch; "-ar"; str_int sr; "-c:a"; enc; "-b:a"; str_int br]
          ++ tail ++ [str_path out])
  /\ (~ (codec = "opus" \/ codec = "aac" \/ codec = "mp3") ->
      build_ffmpeg_cmd inp out codec br sr ch chain
      = Raise (ValueError ("Unsupported codec: " ++ codec))).
Proof.
  unfold build_ffmpeg_cmd.
  destruct (String.eqb_spec codec "opus") as [-> | H1];
    [| destruct (String.eqb_spec codec "aac") as [-> | H2];
       [| destruct (String.eqb_spec codec "mp3") as [-> | H3]]]; simpl.
  - split; [split; [auto | eauto] | split; [| tauto]].
    intros cmd [= <-]. exists "libopus", ["-vbr"; "on"; "-compression_level"; "10"].
    destruct (String.eqb chain ""); reflexivity.
  - split; [split; [auto | eauto] | split; [| tauto]].
    intros cmd [= <-]. exists "aac", [].
    destruct (String.eqb chain ""); reflexivity.
  - split; [split; [auto | eauto] | split; [| tauto]].
    intros cmd [= <-]. exists "libmp3lame", [].
    destruct (String.eqb chain ""); reflexivity.
  - split; [split; [intros [cmd [=]] | intros [? | [? | ?]]; contradiction] |].
    split; [intros cmd [=] | reflexivity].
Qed.

Lemma build_ffmpeg_cmd_shape_witness :
  build_ffmpeg_cmd (PosixPath "a.wav") (PosixPath "a.ogg") "vorbis" 64000 48000 2 ""
  = Raise (ValueError "Unsupported codec: vorbis")
  /\ exists cmd,
       build_ffmpeg_cmd (PosixPath "a.wav") (PosixPath "a.mp3") "mp3" 64000 48000 2 ""
       = Ok cmd.
Proof.
  split.
  - apply (build_ffmpeg_cmd_shape (PosixPath "a.wav") (PosixPath "a.ogg") "vorbis"
             64000 48000 2 "").
    intros [H | [H | H]]; discriminate.
  - apply (build_ffmpeg_cmd_shape (PosixPath "a.wav") (PosixPath "a.mp3") "mp3"
             64000 48000 2 "").
    right. right. reflexivity.
Defined.

(** ** Derived output paths *)

Lemma normalize_ext_cases (c : string) :
  normalize_ext_for_codec c = ".opus" \/ normalize_ext_for_codec c = ".m4a"
  \/ normalize_ext_for_codec c = ".mp3".
Proof.
  unfold normalize_ext_for_codec.
  destruct (String.eqb c "opus"); [auto |].
  destruct (String.eqb c "aac"); [auto |].
  destruct (String.eqb c "mp3"); auto.
Qed.

Lemma posix_path_plain (s : string) :
  plain_name s = true -> PosixPath s = mkPath "" [s].
Proof.
  unfold plain_name. intros H. apply andb_true_iff in H as [Hn Hs].
  unfold PosixPath. rewrite (split_slash_whole s Hs). simpl. rewrite Hn.
  f_equal. unfold root_of, leading_slashes.
  destruct s as [| c r]; [reflexivity |].
  simpl in Hs. apply andb_true_iff in Hs as [Hc _]. apply negb_true_iff in Hc.
  simpl. now rewrite Hc.
Qed.

Lemma joinpath_plain (p : Path) (s : string) :
  plain_name s = true -> joinpath p s = mkPath (anchor p) (names p ++ [s]).
Proof. intros H. unfold joinpath. now rewrite (posix_path_plain s H). Qed.

Lemma rfind_dot_app (x e : string) (i : nat) :
  rfind_dot e = Some i -> rfind_dot (x ++ e) = Some (String.length x + i)%nat.
Proof.
  intros He. induction x as [| c x IH]; simpl; [assumption |]. now rewrite IH.
Qed.

Lemma split_at_length (x e : string) : split_at (String.length x) (x ++ e) = (x, e).
Proof. induction x as [| c x IH]; simpl; [reflexivity | now rewrite IH]. Qed.

(** A name made of a non-empty part and one of the three extensions is cut
    between the two. *)
Lemma name_with_ext (x e : string) :
  x <> "" -> e = ".opus" \/ e = ".m4a" \/ e = ".mp3" ->
  split_at (suffix_index (x ++ e)) (x ++ e) = (x, e).
Proof.
  intros Hx He.
  assert (Hr : rfind_dot e = Some O) by (destruct He as [-> | [-> | ->]]; reflexivity).
  assert (Hl : (4 <= String.length e)%nat)
    by (destruct He as [-> | [-> | ->]]; simpl; lia).
  unfold suffix_index. rewrite (rfind_dot_app x e O Hr), string_length_app.
  rewrite Nat.add_0_r.
  assert (Hpos : (0 < String.length x)%nat)
    by (destruct x; [congruence | simpl; lia]).
  assert (Hc : (Nat.ltb 0 (String.length x)
                && Nat.ltb (String.length x) (String.length x + String.length e - 1))%bool
               = true).
  { apply andb_true_iff. split; apply Nat.ltb_lt; lia. }
  rewrite Hc. apply split_at_length.
Qed.

Lemma plain_name_with_ext (x e : string) :
  no_slash x = true -> e = ".opus" \/ e = ".m4a" \/ e = ".mp3" ->
  plain_name (x ++ e) = true.
Proof.
  intros Hx He. unfold plain_name, is_name. rewrite no_slash_app, Hx.
  assert (Hl : (4 <= String.length (x ++ e))%nat).
  { rewrite string_length_app. destruct He as [-> | [-> | ->]]; simpl; lia. }
  destruct (String.eqb_spec (x ++ e) "") as [E | _]; [rewrite E in Hl; simpl in Hl; lia |].
  destruct (String.eqb_spec (x ++ e) ".") as [E | _]; [rewrite E in Hl; simpl in Hl; lia |].
  destruct He as [-> | [-> | ->]]; reflexivity.
Qed.

Lemma last_snoc {A : Type} (l : list A) (x d : A) : last (l ++ [x]) d = x.
Proof.
  induction l as [| y l IH]; [reflexivity |].
  simpl. destruct (l ++ [x]) eqn:E; [destruct l; discriminate | exact IH].
Qed.

Lemma removelast_snoc {A : Type} (l : list A) (x : A) : removelast (l ++ [x]) = l.
Proof.
  induction l as [| y l IH]; [reflexivity |].
  simpl. destruct (l ++ [x]) eqn:E; [destruct l; discriminate | now rewrite IH].
Qed.

(** X4.  When the output path is derived from the input (an output
    directory, or no [-o] at all), the output file is named after the stem
    of the input, then the suffix option (next to the input only), then the
    extension of the codec; the extension of that name is the extension of
    the codec.  Without [-o] the output lies in the directory of the input,
    with an output directory it lies in that directory.  This is for an
    input with a stem, and a suffix option without a slash. *)
Theorem derived_output_name (a : Args) (pc : preset_config)
    (single_file output_is_dir : bool) (f : Path) :
  stem f <> "" -> no_slash (stem f) = true -> no_slash (suffix a) = true ->
  let ext := normalize_ext_for_codec (str_or (codec a) (p_codec pc)) in
  let out := derive_output_path a pc single_file output_is_dir f in
  (output_mode_of a single_file output_is_dir = NextToInput ->
   name out = (stem f ++ suffix a ++ ext)%string
   /\ stem out = (stem f ++ suffix a)%string
   /\ path_suffix out = ext
   /\ parent out = parent f)
  /\ (output_mode_of a single_file output_is_dir = IntoDirectory ->
      name out = (stem f ++ ext)%string
      /\ stem out = stem f
      /\ path_suffix out = ext
      /\ parent out = PosixPath (str_or (output a) "")).
Proof.
  intros Hne Hst Hsf ext out.
  pose proof (normalize_ext_cases (str_or (codec a) (p_codec pc))) as Hext.
  fold ext in Hext.
  assert (Hgen : forall (p : Path) (x : string),
             x <> "" -> no_slash x = true ->
             name (joinpath p (x ++ ext)) = (x ++ ext)%string
             /\ stem (joinpath p (x ++ ext)) = x
             /\ path_suffix (joinpath p (x ++ ext)) = ext
             /\ parent (joinpath p (x ++ ext)) = mkPath (anchor p) (names p)).
  { intros p x Hx Hs.
    rewrite (joinpath_plain p _ (plain_name_with_ext x ext Hs Hext)).
    assert (Hn : name (mkPath (anchor p) (names p ++ [(x ++ ext)%string]))
                 = (x ++ ext)%string) by apply last_snoc.
    unfold stem, path_suffix. rewrite Hn, (name_with_ext x ext Hx Hext).
    repeat split; trivial.
    unfold parent. simpl. now rewrite removelast_snoc. }
  split; intros Hmode; unfold out, derive_output_path; rewrite Hmode; cbv zeta;
    fold ext.
  - assert (Hx : (stem f ++ suffix a)%string <> "")
      by (destruct (stem f); [congruence | discriminate]).
    assert (Hs : no_slash (stem f ++ suffix a) = true)
      by (now rewrite no_slash_app, Hst, Hsf).
    assert (Hassoc : (stem f ++ suffix a ++ ext)%string
                     = ((stem f ++ suffix a) ++ ext)%string).
    { clear. induction (stem f) as [| c x IH]; simpl; [reflexivity | now rewrite IH]. }
    rewrite Hassoc.
    destruct (Hgen (parent f) _ Hx Hs) as (H1 & H2 & H3 & H4).
    repeat split; trivial.
  - destruct (Hgen (PosixPath (str_or (output a) "")) _ Hne Hst) as (H1 & H2 & H3 & H4).
    repeat split; trivial.
Qed.

Lemma derived_output_name_witness :
  name (derive_output_path (default_args ["talks/intro.wav"]) (PRESETS podcast)
          true false (PosixPath "talks/intro.wav")) = "intro.opus"
  /\ parent (derive_output_path (default_args ["talks/intro.wav"]) (PRESETS podcast)
               true false (PosixPath "talks/intro.wav"))
     = parent (PosixPath "talks/intro.wav").
Proof.
  destruct (proj1 (derived_output_name (default_args ["talks/intro.wav"])
                     (PRESETS podcast) true false (PosixPath "talks/intro.wav")
                     ltac:(discriminate) eq_refl eq_refl) eq_refl)
    as (H1 & _ & _ & H4).
  split; [exact H1 | exact H4].
Defined.

(** X5.  With an output directory the output path depends on the input
    through its stem alone: two inputs with the same stem, whatever their
    directories and extensions, are given the same output path, unless that
    path is one of the inputs themselves. *)
Theorem same_stem_same_output (a : Args) (pc : preset_config)
    (single_file output_is_dir : bool) (f g : Path) :
  output_mode_of a single_file output_is_dir = IntoDirectory ->
  stem f = stem g ->
  derive_output_path a pc single_file output_is_dir f
  = derive_output_path a pc single_file output_is_dir g
  /\ (derive_output_path a pc single_file output_is_dir f <> f ->
      derive_output_path a pc single_file output_is_dir g <> g ->
      choose_output_path a pc single_file output_is_dir f
      = choose_output_path a pc single_file output_is_dir g).
Proof.
  intros Hmode Hstem.
  assert (Hd : derive_output_path a pc single_file output_is_dir f
               = derive_output_path a pc single_file output_is_dir g).
  { unfold derive_output_path. now rewrite Hmode, Hstem. }
  split; [exact Hd |].
  intros Hf Hg. unfold choose_output_path, avoid_input.
  destruct (Path_eqb _ f) eqn:Ef; [apply Path_eqb_eq in Ef; contradiction |].
  destruct (Path_eqb _ g) eqn:Eg; [apply Path_eqb_eq in Eg; contradiction |].
  exact Hd.
Qed.

Lemma same_stem_same_output_witness :
  choose_output_path (with_output (default_args ["cd1/a.wav"; "cd2/a.mp3"]) (Some "out"))
    (PRESETS music) false true (PosixPath "cd1/a.wav")
  = choose_output_path (with_output (default_args ["cd1/a.wav"; "cd2/a.mp3"]) (Some "out"))
      (PRESETS music) false true (PosixPath "cd2/a.mp3").
Proof.
  apply (same_stem_same_output
           (with_output (default_args ["cd1/a.wav"; "cd2/a.mp3"]) (Some "out"))
           (PRESETS music) false true (PosixPath "cd1/a.wav") (PosixPath "cd2/a.mp3")
           eq_refl eq_refl);
    intros H; apply (f_equal names) in H; vm_compute in H; discriminate.
Defined.

(** ** What a job leaves behind *)

Section Aftermath.

Context {World : Type} (os : OS World).

(** The three ways out of [run_encoder]. *)
Lemma run_encoder_true (out : Path) (size : Z) (job : Job) (s s' : State World) :
  run_encoder os out size job s = (s', Ok true) ->
  os_path_exists os (world s') out = true /\ size <> 0
  /\ exists p, snd (run_cmd os (world s) (j_cmd job)) = Ok p /\ returncode p = 0.
Proof.
  unfold run_encoder, bind, say, call, ask, lift, ret, raise.
  destruct (run_cmd os (world s) (j_cmd job)) as [w1 [p | e]]; simpl; [| discriminate].
  destruct (Z.eqb_spec (returncode p) 0) as [Hc | Hc]; simpl.
  - destruct (os_path_exists os w1 out) eqn:Hex; simpl; [| discriminate].
    destruct (os_path_getsize os w1 out) as [asz | e]; simpl; [| discriminate].
    unfold true_div.
    destruct (Z.eqb_spec size 0) as [Hz | Hz]; simpl; [discriminate |].
    destruct (_ <=? _); simpl; [discriminate |].
    pose proof (print_keeps_files os w1 (ActualSize size asz) out) as Hk.
    destruct (os_print os w1 (ActualSize size asz)) as [w2 [[] | e]]; simpl in *;
      [| discriminate].
    intros [= <-]. simpl. rewrite Hk. eauto.
  - destruct (os_print os w1 _) as [w2 [[] | e]]; simpl; [| discriminate].
    destruct (os_path_exists os w2 out); simpl; [| discriminate].
    destruct (os_remove os w2 out) as [w3 [[] | e]]; discriminate.
Qed.

Lemma run_encoder_false (out : Path) (size : Z) (job : Job) (s s' : State World) :
  remove_works os ->
  run_encoder os out size job s = (s', Ok false) ->
  os_path_exists os (world s') out = false.
Proof.
  intros Hrm. unfold run_encoder, bind, say, call, ask, lift, ret, raise.
  destruct (run_cmd os (world s) (j_cmd job)) as [w1 [p | e]]; simpl; [| discriminate].
  destruct (Z.eqb_spec (returncode p) 0) as [Hc | Hc]; simpl.
  - destruct (os_path_exists os w1 out) eqn:Hex; simpl.
    + destruct (os_path_getsize os w1 out) as [asz | e]; simpl; [| discriminate].
      destruct (true_div (size - asz) size); simpl; [| discriminate].
      destruct (os_print os w1 _) as [w2 [[] | e]]; discriminate.
    + intros [= <-]. exact Hex.
  - destruct (os_print os w1 _) as [w2 [[] | e]]; simpl; [| discriminate].
    destruct (os_path_exists os w2 out) eqn:Hex; simpl.
    + destruct (Hrm w2 out) as [_ Hgone].
      destruct (os_remove os w2 out) as [w3 [[] | e]]; simpl in *; [| discriminate].
      intros [= <-]. exact Hgone.
    + intros [= <-]. exact Hex.
Qed.

Lemma compress_audio_except_gone (out : Path) (s : State World) :
  remove_works os ->
  os_path_exists os (world (compress_audio_except os out s)) out = false.
Proof.
  intros Hrm. unfold compress_audio_except.
  destruct (os_path_exists os (world s) out) eqn:Hex; [| exact Hex].
  simpl. apply Hrm.
Qed.

(** X6.  [compress_audio] returns [True] only when the input existed, its
    duration and size could be read and the size is not zero, and the output
    file exists when the job ends.  A job on an empty input can therefore
    not succeed, whatever the encoder does. *)
Theorem success_leaves_output (f out : Path) (pc : preset_config) (s : State World) :
  snd (compress_audio os f out pc s) = Ok true ->
  os_path_exists os (world s) f = true
  /\ os_path_exists os (world (fst (compress_audio os f out pc s))) out = true
  /\ exists d size, job_inputs os f s = Some (d, size) /\ size <> 0.
Proof.
  unfold compress_audio, job_inputs.
  destruct (os_path_exists os (world s) f); simpl.
  2:{ unfold bind, ret. destruct (say os _ s) as [s1 [[] | e]]; discriminate. }
  rewrite compress_audio_try_eq.
  destruct (ffprobe_duration os f s) as [s1 [d | e]].
  2:{ simpl. destruct (say os _ s1) as [s2 [[] | e']]; discriminate. }
  destruct (os_path_getsize os (world s1) f) as [size | e].
  2:{ simpl. destruct (say os _ s1) as [s2 [[] | e']]; discriminate. }
  destruct (plan_job os pc d size (args s1)) as [a' [p | e]].
  2:{ simpl. destruct (say os _ _) as [s2 [[] | e']]; discriminate. }
  destruct (say os (Estimate _ _ _ _ _) _) as [s2 [[] | e]].
  2:{ simpl. destruct (say os _ _) as [s3 [[] | e']]; discriminate. }
  destruct (job_of_plan f out p) as [job | e].
  2:{ simpl. destruct (say os _ _) as [s3 [[] | e']]; discriminate. }
  destruct (run_encoder os out size job _) as [s3 [[|] | e]] eqn:Hrun; simpl.
  - intros _. apply run_encoder_true in Hrun as (Hex & Hz & _). repeat split; eauto.
  - discriminate.
  - destruct (say os _ _) as [s4 [[] | e']]; discriminate.
Qed.

(** X7.  Where [os.remove] works, a job on an existing input that returns
    [False] leaves no file at its output path: what the encoder wrote is
    removed, and so is a file that was there before a job that failed before
    it reached the encoder. *)
Theorem failure_leaves_no_output (f out : Path) (pc : preset_config)
    (s : State World) :
  remove_works os ->
  os_path_exists os (world s) f = true ->
  snd (compress_audio os f out pc s) = Ok false ->
  os_path_exists os (world (fst (compress_audio os f out pc s))) out = false.
Proof.
  intros Hrm Hin. unfold compress_audio. rewrite Hin. simpl.
  destruct (compress_audio_try os f out pc s) as [s1 [[|] | e]] eqn:Htry; simpl;
    [discriminate | |].
  - intros _. rewrite compress_audio_try_eq in Htry.
    destruct (ffprobe_duration os f s) as [s0 [d | e]]; [| discriminate].
    destruct (os_path_getsize os (world s0) f) as [size | e]; [| discriminate].
    destruct (plan_job os pc d size (args s0)) as [a' [p | e]]; [| discriminate].
    destruct (say os _ _) as [s2 [[] | e]]; [| discriminate].
    destruct (job_of_plan f out p) as [job | e]; [| discriminate].
    eapply run_encoder_false; [exact Hrm | exact Htry].
  - destruct (say os (JobError f e) s1) as [s2 [[] | e']]; simpl; [| discriminate].
    intros _. now apply compress_audio_except_gone.
Qed.

End Aftermath.

Lemma fs_remove_works : remove_works fs_os.
Proof.
  intros w p. split; [reflexivity |]. simpl. unfold fs_exists.
  induction w as [| q w IH]; simpl; [reflexivity |].
  destruct (Path_eqb p q) eqn:E; simpl; [exact IH | now rewrite E].
Qed.

Lemma success_leaves_output_witness :
  snd (compress_audio fs_os (PosixPath "long.wav") (PosixPath "long.opus")
         (PRESETS voice) (mkState fs_start (default_args ["long.wav"]))) = Ok true
  /\ fs_exists
       (world (fst (compress_audio fs_os (PosixPath "long.wav") (PosixPath "long.opus")
                      (PRESETS voice) (mkState fs_start (default_args ["long.wav"])))))
       (PosixPath "long.opus") = true.
Proof.
  assert (H : snd (compress_audio fs_os (PosixPath "long.wav") (PosixPath "long.opus")
                     (PRESETS voice) (mkState fs_start (default_args ["long.wav"])))
              = Ok true) by (vm_compute; reflexivity).
  split; [exact H |].
  apply (success_leaves_output fs_os (PosixPath "long.wav") (PosixPath "long.opus")
           (PRESETS voice) (mkState fs_start (default_args ["long.wav"])) H).
Defined.

Lemma failure_leaves_no_output_witness :
  fs_exists fs_start (PosixPath "broken.opus") = true
  /\ fs_exists
       (world (fst (compress_audio fs_os (PosixPath "broken.wav")
                      (PosixPath "broken.opus") (PRESETS voice)
                      (mkState fs_start (default_args ["broken.wav"])))))
       (PosixPath "broken.opus") = false
  /\ fs_exists
       (world (fst (compress_audio fs_os (PosixPath "short.wav")
                      (PosixPath "short.opus") (PRESETS voice)
                      (mkState fs_start (default_args ["short.wav"])))))
       (PosixPath "short.opus") = false.
Proof.
  split; [reflexivity | split].
  - apply (failure_leaves_no_output fs_os (PosixPath "broken.wav")
             (PosixPath "broken.opus") (PRESETS voice)
             (mkState fs_start (default_args ["broken.wav"])) fs_remove_works);
      vm_compute; reflexivity.
  - apply (failure_leaves_no_output fs_os (PosixPath "short.wav")
             (PosixPath "short.opus") (PRESETS voice)
             (mkState fs_start (default_args ["short.wav"])) fs_remove_works);
      vm_compute; reflexivity.
Defined.

(** ** The run as a whole *)

Section Run.

Context {World : Type} (os : OS World).

Lemma process_files_count (pc : preset_config) (single_file output_is_dir : bool)
    (files : list Path) :
  forall (s s' : State World) (n m n' m' : Z),
    process_files os pc single_file output_is_dir files s n m = (s', Ok (n', m')) ->
    n <= n' /\ m <= m' /\ n' + m' = n + m + Z.of_nat (List.length files).
Proof.
  induction files as [| f rest IH]; intros s s' n m n' m'.
  - intros [= _ <- <-]. simpl. lia.
  - cbn [process_files List.length].
    destruct (process_file os pc single_file output_is_dir f s) as [s1 [[|] | e]];
      [| | discriminate]; intros H; apply IH in H; lia.
Qed.

(** X8.  A run that reaches its summary has counted every file that was
    found exactly once: the two counters are not negative and add up to the
    number of input files, which is at least one. *)
Theorem tally_counts_every_file (a : Args) (w w' : World) (n m : Z) :
  main os a w = (w', Completed n m) ->
  0 <= n /\ 0 <= m
  /\ n + m = Z.of_nat (List.length (collect_inputs os w (map PosixPath (paths a))))
  /\ 1 <= n + m.
Proof.
  unfold main.
  destruct (os_print os w (prologue_notice os a w)) as [w1 [[] | e1]];
    [| discriminate].
  destruct (main_prologue os a w) as [r | [[a' files] oid]] eqn:Hpro.
  - intros [= _ ->]. unfold main_prologue in Hpro.
    destruct (list_presets a); [discriminate |].
    destruct (negb (require_ffmpeg os w)); [discriminate |].
    destruct (collect_inputs os w (map PosixPath (paths a))); [discriminate |].
    destruct (parse_target_size os a); discriminate.
  - destruct (main_prologue_inr os a w a' files oid Hpro) as (_ & _ & _ & Hf & Hne).
    destruct (process_files os (PRESETS (preset a')) (List.length files =? 1)%nat oid
                files (mkState w1 a') 0 0) as [s' [[n1 m1] | e]] eqn:Hrun;
      [| discriminate].
    destruct (os_print os (world s') (Summary n1 m1)) as [w2 [[] | e2]];
      [| discriminate].
    intros [= _ <- <-]. apply process_files_count in Hrun. rewrite <- Hf.
    destruct files; [congruence |]. simpl List.length in *. lia.
Qed.


(** X10.  A run writes one field of the options object and no other: after
    any number of turns the object is as it was, or differs in its low-pass
    field alone, which was empty and now holds 8000, and then the preset is
    the voice preset.  An explicit low-pass and every run under the music
    and podcast presets leave the object as it was. *)
Theorem run_writes_lowpass_only (pc : preset_config)
    (single_file output_is_dir : bool) (files : list Path) :
  forall (s : State World) (n m : Z),
    let a' := args (fst (process_files os pc single_file output_is_dir files s n m)) in
    a' = args s
    \/ (preset (args s) = voice /\ lp (args s) = None
        /\ a' = set_lp (args s) (Some 8000)).
Proof.
  induction files as [| f rest IH]; intros s n m; [now left |].
  cbn [process_files]. cbv zeta.
  assert (H1 : args (fst (process_file os pc single_file output_is_dir f s)) = args s
               \/ (preset (args s) = voice /\ lp (args s) = None
                   /\ args (fst (process_file os pc single_file output_is_dir f s))
                      = set_lp (args s) (Some 8000))).
  { destruct (process_file_args os pc single_file output_is_dir f s)
      as [-> | (out & d & size & ->)]; [now left |].
    rewrite prepare_job_args.
    destruct (determine_bitrate (args s) d pc) as [br |]; [| now left].
    unfold adjust_lowpass.
    destruct (preset_name_eqb (preset (args s)) voice) eqn:Hp; [| now left].
    destruct (br <=? 24000); [| now left].
    destruct (lp (args s)) eqn:Hlp; [now left |].
    right. repeat split; trivial. now destruct (preset (args s)). }
  assert (Hrest : forall s1 n1 m1,
             args s1 = args (fst (process_file os pc single_file output_is_dir f s)) ->
             args (fst (process_files os pc single_file output_is_dir rest s1 n1 m1))
             = args s
             \/ (preset (args s) = voice /\ lp (args s) = None
                 /\ args (fst (process_files os pc single_file output_is_dir rest s1 n1 m1))
                    = set_lp (args s) (Some 8000))).
  { intros s1 n1 m1 Hs1. specialize (IH s1 n1 m1). cbv zeta in IH.
    destruct H1 as [H1 | (Hp & Hlp & H1)]; rewrite H1 in Hs1.
    - rewrite Hs1 in IH. exact IH.
    - right. repeat split; trivial.
      destruct IH as [IH | (_ & Hnone & _)]; [congruence |].
      rewrite Hs1 in Hnone. discriminate. }
  destruct (process_file os pc single_file output_is_dir f s) as [s1 [[|] | e]];
    simpl in *; [now apply Hrest | now apply Hrest | exact H1].
Qed.

End Run.

Lemma tally_counts_every_file_witness :
  main fs_os (default_args ["long.wav"; "short.wav"; "broken.wav"]) fs_start
  = ([PosixPath "long.wav"; PosixPath "short.wav"; PosixPath "broken.wav";
      PosixPath "long.opus"], Completed 1 2)
  /\ 1 + 2 = 3.
Proof.
  assert (H : main fs_os (default_args ["long.wav"; "short.wav"; "broken.wav"]) fs_start
              = ([PosixPath "long.wav"; PosixPath "short.wav"; PosixPath "broken.wav";
                  PosixPath "long.opus"], Completed 1 2))
    by (vm_compute; reflexivity).
  split; [exact H |].
  apply (tally_counts_every_file fs_os _ _ _ _ _ H).
Defined.


(** ** Loudness normalization *)

Lemma adjust_lowpass_lufs (a : Args) (br : Z) : lufs (adjust_lowpass a br) = lufs a.
Proof. unfold adjust_lowpass. now destruct (_ && _). Qed.

(** X11.  Under each preset of the catalog the filter chain of a job is
    never empty: its last stage is the loudness normalization, at the level
    of [--lufs] or else of the preset, and the encoder command carries it
    after [-af].  No option switches the normalization off. *)
Theorem loudnorm_always_applied {World : Type} (os : OS World) (inp out : Path)
    (p : preset_name) (d : float) (size : Z) (a a' : Args) (job : Job) :
  prepare_job os inp out (PRESETS p) d size a = (a', Ok job) ->
  exists x,
    or_else (lufs a) (p_lufs (PRESETS p)) = Some x
    /\ last (build_filters os a' (PRESETS p)) ""
       = ("loudnorm=I=" ++ float_repr os x ++ ":LRA=11:TP=-1.5")%string
    /\ j_filterchain job <> ""
    /\ nth 7 (j_cmd job) "" = "-af"
    /\ nth 8 (j_cmd job) "" = j_filterchain job.
Proof.
  intros H. apply prepare_job_inv in H as (_ & Ha' & Hchain & Hcmd).
  assert (Hx : exists x, or_else (lufs a) (p_lufs (PRESETS p)) = Some x).
  { destruct (lufs a) as [x |]; simpl; [eauto |]. destruct p; simpl; eauto. }
  destruct Hx as [x Hx]. exists x. split; [exact Hx |].
  assert (Hlast : build_filters os a' (PRESETS p)
                  = (silence_stage os a' ++ highpass_stage a' (PRESETS p)
                     ++ lowpass_stage a' (PRESETS p))
                    ++ [("loudnorm=I=" ++ float_repr os x ++ ":LRA=11:TP=-1.5")%string]).
  { unfold build_filters, loudnorm_stage.
    rewrite Ha', adjust_lowpass_lufs, Hx, <- Ha'. now rewrite !app_assoc. }
  assert (Hne : j_filterchain job <> "").
  { rewrite Hchain, build_filterchain_concat. intros E.
    pose proof (concat_covers ","
                  ("loudnorm=I=" ++ float_repr os x ++ ":LRA=11:TP=-1.5")
                  (build_filters os a' (PRESETS p))) as Hc.
    rewrite E in Hc. simpl in Hc.
    assert (Hin : In ("loudnorm=I=" ++ float_repr os x ++ ":LRA=11:TP=-1.5")%string
                    (build_filters os a' (PRESETS p)))
      by (rewrite Hlast; apply in_or_app; right; now left).
    specialize (Hc Hin). lia. }
  split; [rewrite Hlast; apply last_snoc |]. split; [exact Hne |].
  unfold build_ffmpeg_cmd in Hcmd.
  rewrite (string_eqb_nil_false _ Hne) in Hcmd.
  destruct (String.eqb (j_codec job) "opus");
    [| destruct (String.eqb (j_codec job) "aac");
       [| destruct (String.eqb (j_codec job) "mp3")]];
    simpl in Hcmd; try discriminate; injection Hcmd as <-; split; reflexivity.
Qed.

Lemma loudnorm_always_applied_witness :
  match prepare_job demo_os (PosixPath "track.wav") (PosixPath "track.opus")
          (PRESETS music) 300 4000000 (default_args ["track.wav"]) with
  | (_, Ok job) =>
      j_filterchain job = "loudnorm=I=-14.0:LRA=11:TP=-1.5"
      /\ nth 7 (j_cmd job) "" = "-af"
  | (_, Raise _) => False
  end.
Proof.
  destruct (prepare_job demo_os (PosixPath "track.wav") (PosixPath "track.opus")
              (PRESETS music) 300 4000000 (default_args ["track.wav"]))
    as [a' [job | e]] eqn:E; [| vm_compute in E; discriminate].
  destruct (loudnorm_always_applied demo_os _ _ music _ _ _ _ _ E)
    as (x & _ & _ & _ & H7 & _).
  split; [| exact H7].
  vm_compute in E. injection E as _ <-. reflexivity.
Defined.

(** ** The output mode *)

(** X12.  Which of the three output modes a run uses: without [-o] (or with
    an empty one) the output goes next to the input; with [-o] and exactly
    one input file, [-o] names the output file unless it is an existing
    directory; with [-o] and several input files, [-o] is a directory,
    whatever it names. *)
Theorem output_mode_table {World : Type} (os : OS World) (a : Args) (w : World)
    (a' : Args) (files : list Path) (oid : bool) :
  main_prologue os a w = inr (a', files, oid) ->
  output_mode_of a' (List.length files =? 1)%nat oid =
  if negb (truthy_str (output a)) then NextToInput
  else if (List.length files =? 1)%nat
          && negb (path_is_dir os w (PosixPath (str_or (output a) "")))
       then ExplicitFile
       else IntoDirectory.
Proof.
  unfold main_prologue.
  destruct (list_presets a); [discriminate |].
  destruct (negb (require_ffmpeg os w)); [discriminate |].
  destruct (collect_inputs os w (map PosixPath (paths a))) as [| f rest];
    [discriminate |].
  destruct (parse_target_size os a) as [parsed | e]; [| discriminate].
  intros [= <- <- <-]. unfold output_mode_of. cbn [output set_parsed].
  change (List.length rest =? 0)%nat with (List.length (f :: rest) =? 1)%nat.
  generalize (List.length (f :: rest) =? 1)%nat. intros sf.
  destruct (truthy_str (output a)), sf,
    (path_is_dir os w (PosixPath (str_or (output a) ""))); reflexivity.
Qed.

Lemma output_mode_table_witness :
  output_mode_of
    (set_parsed (with_output (default_args ["long.wav"; "short.wav"]) (Some "mix.opus"))
       None)
    false true = IntoDirectory.
Proof.
  apply (output_mode_table demo_os
           (with_output (default_args ["long.wav"; "short.wav"]) (Some "mix.opus")) []
           _ (map PosixPath ["long.wav"; "short.wav"]) true eq_refl).
Defined.

(** ** File discovery *)





Section Sorting.

Variable leb : Path -> Path -> bool.







End Sorting.




(** ** The codec of a run *)

Lemma adjust_lowpass_codec (a : Args) (br : Z) :
  codec (adjust_lowpass a br) = codec a.
Proof.
  unfold adjust_lowpass.
  repeat match goal with |- context [if ?c then _ else _] => destruct c end;
    try reflexivity.
  all: destruct (lp a); reflexivity.
Qed.

Lemma determine_bitrate_errors (a : Args) (d : float) (pc : preset_config) (e : exn) :
  determine_bitrate a d pc = Raise e ->
  (exists s, e = ValueError ("Invalid bitrate: " ++ s))
  \/ (exists n, e = ValueError (int_limit_message n))
  \/ e = ValueError "Duration must be positive"
  \/ e = OverflowError
  \/ e = ValueError "cannot convert float NaN to integer".
Proof.
  assert (Hb : forall r : result Z,
             r = match b a with
                 | Some s =>
                     if String.eqb s "" then Ok (p_bitrate_bps pc)
                     else match match_bitrate s with
                          | None => Raise (ValueError ("Invalid bitrate: " ++ s))
                          | Some g => (n <- int_of_digits g ;; Ok (n * 1000))%result
                          end
                 | None => Ok (p_bitrate_bps pc)
                 end ->
             r = Raise e ->
             (exists s, e = ValueError ("Invalid bitrate: " ++ s))
             \/ (exists n, e = ValueError (int_limit_message n))).
  { intros r -> H. destruct (b a) as [s |]; [| discriminate].
    destruct (String.eqb s ""); [discriminate |].
    destruct (match_bitrate s) as [g |]; [| injection H as <-; left; now exists s].
    unfold int_of_digits in H.
    destruct (int_max_str_digits <? List.length g)%nat; [| discriminate].
    injection H as <-. right. now exists (List.length g). }
  assert (Hc : forall n, compute_bitrate_for_target_size n d = Raise e ->
               e = ValueError "Duration must be positive"
               \/ e = OverflowError
               \/ e = ValueError "cannot convert float NaN to integer").
  { intros n. unfold compute_bitrate_for_target_size.
    destruct (d <=? 0)%float; [intros [= <-]; auto |].
    unfold float_of_int. destruct (is_infinity _); simpl; [intros [= <-]; auto |].
    unfold int_of_float. destruct (Prim2SF _); simpl; intros [= <-]; auto. }
  unfold determine_bitrate.
  destruct (ts a) as [n |].
  - destruct (n =? 0).
    + intros H. destruct (Hb _ eq_refl H); auto.
    + intros H. right. right. exact (Hc n H).
  - intros H. destruct (Hb _ eq_refl H); auto.
Qed.

Lemma plan_job_errors {World : Type} (os : OS World) (pc : preset_config)
    (d : float) (size : Z) (a : Args) (e : exn) :
  snd (plan_job os pc d size a) = Raise e ->
  determine_bitrate a d pc = Raise e
  \/ e = OverflowError
  \/ e = ValueError "cannot convert float NaN to integer"
  \/ e = ZeroDivisionError.
Proof.
  unfold plan_job.
  destruct (determine_bitrate a d pc) as [br | e0]; simpl; [| intros [= <-]; auto].
  unfold float_of_int at 1. destruct (is_infinity _); simpl; [intros [= <-]; auto |].
  unfold int_of_float at 1.
  destruct (Prim2SF _); simpl; try (intros [= <-]; auto; fail).
  - destruct (_ <? _); simpl; [| discriminate]. unfold true_div.
    destruct (size =? 0); simpl; [intros [= <-]; auto |].
    destruct (_ <=? _); simpl; [intros [= <-]; auto | discriminate].
  - destruct (_ <? _); simpl; [| discriminate]. unfold true_div.
    destruct (size =? 0); simpl; [intros [= <-]; auto |].
    destruct (_ <=? _); simpl; [intros [= <-]; auto | discriminate].
Qed.

(** X14.  The error [Unsupported codec] of [build_ffmpeg_cmd] cannot be
    reached from the command line.  With a codec that the parser lets
    through and a preset of the catalog, the command is built for every
    plan that lines 233 to 258 come up with.  Lines 233 to 274, the [print]
    of the estimate apart, can then fail only where the bitrate is resolved
    ("Invalid bitrate", a run of digits too long for [int], "Duration must
    be positive", a conversion that overflows or meets a NaN) or where the
    estimate is computed (a conversion again, or the division by the size
    of an empty input). *)
Theorem codec_error_unreachable {World : Type} (os : OS World) (inp out : Path)
    (p : preset_name) (d : float) (size : Z) (a : Args) :
  cli_codec a ->
  (forall a' plan,
     plan_job os (PRESETS p) d size a = (a', Ok plan) ->
     exists job, job_of_plan inp out plan = Ok job)
  /\ (forall e,
        snd (prepare_job os inp out (PRESETS p) d size a) = Raise e ->
        snd (plan_job os (PRESETS p) d size a) = Raise e
        /\ ((exists s, e = ValueError ("Invalid bitrate: " ++ s))
            \/ (exists n, e = ValueError (int_limit_message n))
            \/ e = ValueError "Duration must be positive"
            \/ e = OverflowError
            \/ e = ValueError "cannot convert float NaN to integer"
            \/ e = ZeroDivisionError))
  /\ (forall c,
        snd (prepare_job os inp out (PRESETS p) d size a)
        <> Raise (ValueError ("Unsupported codec: " ++ c))).
Proof.
  intros Hc.
  assert (Hbuild : forall a' plan,
             plan_job os (PRESETS p) d size a = (a', Ok plan) ->
             exists job, job_of_plan inp out plan = Ok job).
  { intros a' plan Hp. apply plan_job_inv in Hp as (_ & -> & _ & Hcodec).
    rewrite adjust_lowpass_codec in Hcodec.
    assert (Hk : pl_codec plan = "opus" \/ pl_codec plan = "aac"
                 \/ pl_codec plan = "mp3").
    { rewrite Hcodec. destruct Hc as [-> | [-> | [-> | ->]]]; simpl; auto.
      destruct p; simpl; auto. }
    unfold job_of_plan, build_ffmpeg_cmd.
    destruct Hk as [-> | [-> | ->]]; simpl; eauto. }
  assert (Hprep : forall e,
             snd (prepare_job os inp out (PRESETS p) d size a) = Raise e ->
             snd (plan_job os (PRESETS p) d size a) = Raise e).
  { intros e. unfold prepare_job.
    pose proof (fun a' plan => Hbuild a' plan) as Hb.
    destruct (plan_job os (PRESETS p) d size a) as [a' [plan | e0]]; simpl;
      [| intros [= ->]; reflexivity].
    destruct (Hb a' plan eq_refl) as [job ->]. discriminate. }
  assert (Hcauses : forall e,
             snd (prepare_job os inp out (PRESETS p) d size a) = Raise e ->
             (exists s, e = ValueError ("Invalid bitrate: " ++ s))
             \/ (exists n, e = ValueError (int_limit_message n))
             \/ e = ValueError "Duration must be positive"
             \/ e = OverflowError
             \/ e = ValueError "cannot convert float NaN to integer"
             \/ e = ZeroDivisionError).
  { intros e H. apply Hprep, plan_job_errors in H as [H | [H | [H | H]]].
    - apply determine_bitrate_errors in H as [H | [H | [H | [H | H]]]]; tauto.
    - tauto.
    - tauto.
    - tauto. }
  split; [exact Hbuild | split].
  - intros e H. split; [now apply Hprep | now apply Hcauses].
  - intros c H. apply Hcauses in H as [[s H] | [[n H] | [H | [H | [H | H]]]]];
      discriminate.
Qed.

Lemma codec_error_unreachable_witness :
  cli_codec args_fast
  /\ snd (prepare_job demo_os (PosixPath "long.wav") (PosixPath "long.opus")
            (PRESETS music) 10 4000000 args_fast)
     = Raise (ValueError "Invalid bitrate: fast")
  /\ snd (plan_job demo_os (PRESETS music) 10 4000000 args_fast)
     = Raise (ValueError "Invalid bitrate: fast")
  /\ exists job,
       job_of_plan (PosixPath "long.wav") (PosixPath "long.m4a")
         (mkPlan 80000 48000 2 "aac" "loudnorm=I=-14.0:LRA=11:TP=-1.5" 100000)
       = Ok job.
Proof.
  assert (H : cli_codec args_fast) by (left; reflexivity).
  assert (E : snd (prepare_job demo_os (PosixPath "long.wav") (PosixPath "long.opus")
                     (PRESETS music) 10 4000000 args_fast)
              = Raise (ValueError "Invalid bitrate: fast"))
    by (vm_compute; reflexivity).
  split; [exact H | split; [exact E | split]].
  - apply (proj1 (proj2 (codec_error_unreachable demo_os (PosixPath "long.wav")
                           (PosixPath "long.opus") music 10 4000000 args_fast H))
             _ E).
  - apply (proj1 (codec_error_unreachable demo_os (PosixPath "long.wav")
                    (PosixPath "long.m4a") music 10 4000000 args_aac
                    ltac:(right; right; left; reflexivity))
             args_aac
             (mkPlan 80000 48000 2 "aac" "loudnorm=I=-14.0:LRA=11:TP=-1.5" 100000)).
    vm_compute. reflexivity.
Defined.
